(** * DENUE quantifier: a shallow embedding of [denue_cuantificar.py]

    The development follows the layout of the script:

    - [PyStr]: the string methods the script calls ([strip], [isdigit],
      [zfill], [split], [lower], [endswith]) and the conversion [int(str)];
    - the validators and [pad_areas];
    - [PyFloat]: the floats of Python with [int], [repr] and truth value;
    - [PyVal]: the decoded JSON records with [int], [str] and truth value;
    - [TokenManager] ([TM], [Pool]): the rotating credential queue with
      its failure counts, and sequences of operations on it;
    - [DENUEClient] ([Client]): [fetch], [extract_id], [quantify],
      [get_activities]; [Contract] restates what [quantify] sums;
    - [Executor]: [generate_csv] over a bounded worker pool, as a
      transition system in which futures complete in any order;
    - the entry point;
    - the properties, in the same order.

    Python strings are sequences of code points; the model keeps the code
    points below 256, one per [ascii], and gives every string method the
    value Python gives it on that range (so the superscript digits count
    as digits for [isdigit], and the no-break space is stripped). *)

From Stdlib Require Import ZArith NArith Ascii String List Lia Floats.SpecFloat.
From stdpp Require Import base decidable option list gmap strings pretty sorting.

Local Open Scope string_scope.
Local Open Scope list_scope.
Local Open Scope Z_scope.

(* ===================================================================== *)
(** ** Python strings *)
(* ===================================================================== *)

Module PyStr.

Definition code (c : ascii) : N := N_of_ascii c.

(** [c.isspace()], which is also what [str.strip()] removes: the ASCII
    white space, the four separators 0x1c-0x1f, NEL and the no-break
    space. *)
Definition isspace (c : ascii) : bool :=
  let n := code c in
  ((9 <=? n) && (n <=? 13) || (28 <=? n) && (n <=? 32)
   || (n =? 133) || (n =? 160))%N.

(** [c.isdigit()]: the decimal digits and the superscripts two, three
    and one. *)
Definition isdigit_char (c : ascii) : bool :=
  let n := code c in
  ((48 <=? n) && (n <=? 57) || (n =? 178) || (n =? 179) || (n =? 185))%N.

Fixpoint all_chars (p : ascii -> bool) (s : string) : bool :=
  match s with
  | EmptyString => true
  | String c s' => p c && all_chars p s'
  end.

(** [s.isdigit()]: every character is a digit and there is at least one. *)
Definition isdigit (s : string) : bool :=
  match s with
  | EmptyString => false
  | String _ _ => all_chars isdigit_char s
  end.

Definition len (s : string) : nat := String.length s.

Definition is_empty (s : string) : bool :=
  match s with EmptyString => true | String _ _ => false end.

Fixpoint lstrip (s : string) : string :=
  match s with
  | EmptyString => EmptyString
  | String c s' => if isspace c then lstrip s' else s
  end.

Fixpoint rstrip (s : string) : string :=
  match s with
  | EmptyString => EmptyString
  | String c s' =>
      let r := rstrip s' in
      if isspace c && is_empty r then EmptyString else String c r
  end.

(** [s.strip()] *)
Definition strip (s : string) : string := lstrip (rstrip s).

Fixpoint zeros (n : nat) : string :=
  match n with
  | O => EmptyString
  | S n' => String "0" (zeros n')
  end.

(** [s.zfill(width)]: pads on the left with ['0'], after the sign when
    the string starts with one. *)
Definition zfill (width : nat) (s : string) : string :=
  if (width <=? len s)%nat then s
  else
    let pad := zeros (width - len s) in
    match s with
    | String c s' =>
        if (Ascii.eqb c "+" || Ascii.eqb c "-")%bool
        then String c (pad +:+ s')
        else pad +:+ s
    | EmptyString => pad
    end.

(** [s.split(sep)] for a one-character separator: never an empty list. *)
Fixpoint split (sep : ascii) (s : string) : list string :=
  match s with
  | EmptyString => [EmptyString]
  | String c s' =>
      let r := split sep s' in
      if Ascii.eqb c sep then EmptyString :: r
      else match r with
           | [] => [String c EmptyString]
           | w :: ws => String c w :: ws
           end
  end.

(** [c.lower()] on one code point: the ASCII capitals and the Latin-1
    capitals 0xc0-0xde, the multiplication sign 0xd7 apart. *)
Definition lower_char (c : ascii) : ascii :=
  let n := code c in
  if ((65 <=? n) && (n <=? 90)
      || (192 <=? n) && (n <=? 222) && negb (n =? 215))%N
  then ascii_of_N (n + 32) else c.

Fixpoint lower (s : string) : string :=
  match s with
  | EmptyString => EmptyString
  | String c s' => String (lower_char c) (lower s')
  end.

(** [s.endswith(suffix)] *)
Fixpoint endswith (suffix s : string) : bool :=
  (len s =? len suffix)%nat && String.eqb s suffix
  || match s with
     | EmptyString => false
     | String _ s' => endswith suffix s'
     end.

(** *** [int(s)] for a string

    CPython skips the white space on both sides (here the C white space
    9-13 and 32, and the two Latin-1 spaces 0x85 and 0xa0, which it first
    rewrites to blanks; 0x1c-0x1f are not skipped), reads an optional
    sign, then decimal digits in which single underscores may separate
    digits.  Anything else is a [ValueError], [None] here; so is a
    numeral of more than 4300 digits, the bound that the interpreter puts
    on the conversion unless it is configured otherwise
    ([sys.get_int_max_str_digits()]): every digit counts, leading zeros
    included, the underscores, the sign and the white space do not. *)

Definition MAX_STR_DIGITS : nat := 4300.

Definition int_space (c : ascii) : bool :=
  let n := code c in
  ((9 <=? n) && (n <=? 13) || (n =? 32) || (n =? 133) || (n =? 160))%N.

Definition decimal_value (c : ascii) : option Z :=
  let n := code c in
  if ((48 <=? n) && (n <=? 57))%N then Some (Z.of_N n - 48) else None.

Fixpoint skip_spaces (s : string) : string :=
  match s with
  | EmptyString => EmptyString
  | String c s' => if int_space c then skip_spaces s' else s
  end.

(** The digits after the first one: [acc] is the value read so far,
    [after_us] says that the previous character was an underscore.
    Returns the value and the unread rest. *)
Fixpoint read_digits (acc : Z) (after_us : bool) (s : string)
  : option (Z * string) :=
  match s with
  | EmptyString => if after_us then None else Some (acc, EmptyString)
  | String c s' =>
      match decimal_value c with
      | Some d => read_digits (10 * acc + d) false s'
      | None =>
          if Ascii.eqb c "_" then
            if after_us then None else read_digits acc true s'
          else if after_us then None else Some (acc, s)
      end
  end.

Definition read_number (s : string) : option (Z * string) :=
  match s with
  | EmptyString => None
  | String c s' =>
      match decimal_value c with
      | Some d => read_digits d false s'
      | None => None
      end
  end.

(** The digits of a numeral. *)
Fixpoint count_digits (s : string) : nat :=
  match s with
  | EmptyString => O
  | String c s' =>
      match decimal_value c with
      | Some _ => S (count_digits s')
      | None => count_digits s'
      end
  end.

Definition int_of_str (s : string) : option Z :=
  let s1 := skip_spaces s in
  let '(sign, s2) :=
    match s1 with
    | String c s' =>
        if Ascii.eqb c "+" then (1, s')
        else if Ascii.eqb c "-" then (-1, s')
        else (1, s1)
    | EmptyString => (1, s1)
    end in
  match read_number s2 with
  | Some (n, rest) =>
      if is_empty (skip_spaces rest) && (count_digits s2 <=? MAX_STR_DIGITS)%nat
      then Some (sign * n)
      else None
  | None => None
  end.

End PyStr.

Import PyStr.

(* ===================================================================== *)
(** ** Validations and utilities *)
(* ===================================================================== *)

Definition MAX_RETRIES_PER_TOKEN : nat := 3.
Definition ESTRATOS_FIJOS : list Z := [1; 2; 3; 4; 5; 6; 7].
Definition DEFAULT_WORKERS : Z := 50.
Definition BASE_URL : string :=
  "https://www.inegi.org.mx/app/api/denue/v1/consulta/Cuantificar".

Definition validate_actividad (actividad : string) : bool :=
  String.eqb actividad "0" || isdigit actividad && (len actividad =? 2)%nat.

Definition validate_area (area : string) : bool :=
  String.eqb area "0" || isdigit area && (len area =? 5)%nat.

(** The argument of [validate_estrato] is annotated [Union[int,str]]. *)
Inductive int_or_str :=
| IsInt (z : Z)
| IsStr (s : string).

(** [int(estrato)]; [None] stands for the [ValueError] that
    [validate_estrato] catches. *)
Definition to_int (estrato : int_or_str) : option Z :=
  match estrato with
  | IsInt z => Some z
  | IsStr s => int_of_str s
  end.

Definition validate_estrato (estrato : int_or_str) (allow_zero : bool) : bool :=
  match to_int estrato with
  | None => false
  | Some e =>
      if allow_zero && (e =? 0) then true
      else (1 <=? e) && (e <=? 7)
  end.

(** [list(dict.fromkeys(out))]: the first occurrence of every element, in
    the order of first occurrence. *)
Definition fromkeys (out : list string) : list string :=
  foldl (fun seen x => if decide (x ∈ seen) then seen else seen ++ [x]) [] out.

(** One turn of the loop of [pad_areas]; the warning it logs for a
    rejected area is not part of the result. *)
Definition pad_areas_step (out : list string) (a : string) : list string :=
  let a := strip a in
  if String.eqb a "0" then out ++ ["0"]
  else if isdigit a && (len a <=? 5)%nat then out ++ [zfill 5 a]
  else out.

Definition pad_areas (areas : list string) : list string :=
  fromkeys (foldl pad_areas_step [] areas).

(* ===================================================================== *)
(** ** Outcomes of a call *)
(* ===================================================================== *)

Inductive exn :=
  ValueError | TypeError | KeyError | IndexError | OSError | OverflowError.

(** A call returns, raises, or never comes back: [queue.get(block=True)]
    on a queue that stays empty blocks for ever. *)
Inductive outcome (A : Type) : Type :=
| Returns (a : A)
| Raises (e : exn)
| Blocks.

Arguments Returns {A} a.
Arguments Raises {A} e.
Arguments Blocks {A}.

Global Instance outcome_ret : MRet outcome := fun A a => Returns a.

Global Instance outcome_bind : MBind outcome := fun A B k m =>
  match m with
  | Returns a => k a
  | Raises e => Raises e
  | Blocks => Blocks
  end.

Global Instance outcome_fmap : FMap outcome := fun A B f m =>
  match m with
  | Returns a => Returns (f a)
  | Raises e => Raises e
  | Blocks => Blocks
  end.

(** [try: body / except: handler] with a bare [except]. *)
Definition try_except {A} (body : outcome A) (handler : outcome A) : outcome A :=
  match body with
  | Raises _ => handler
  | o => o
  end.

(** [for x in l: acc = body(acc, x)] *)
Fixpoint for_each {A B} (body : B -> A -> outcome B) (l : list A) (acc : B)
  : outcome B :=
  match l with
  | [] => Returns acc
  | x :: l' => acc' ← body acc x; for_each body l' acc'
  end.

(* ===================================================================== *)
(** ** The floats of Python *)
(* ===================================================================== *)

(** A Python float is an IEEE 754 binary64: a signed zero, a signed
    infinity, NaN, or [(-1)^s * m * 2^e]; [spec_float] writes them so, and
    the binary64 are those that [valid_binary 53 1024] accepts.  The
    functions below take any pair [m], [e] with the value of the float. *)
Module PyFloat.

(** The mantissa and exponent of the binary64 with the value [m * 2^e]:
    53 bits of mantissa, or fewer with the least exponent -1074. *)
Definition normalize (m e : Z) : Z * Z :=
  let shift := Z.max 0 (Z.min (53 - (Z.log2 m + 1)) (e + 1074)) in
  (m * 2 ^ shift, e - shift).

(** The number of decimal digits of a positive integer. *)
Definition decimal_length (n : Z) : Z := Z.of_nat (String.length (pretty n)).

(** The decimal exponent [k] of [b / s]: [10^k <= b / s < 10^(k+1)]. *)
Definition decimal_exponent (b s : Z) : Z :=
  if s <=? b then decimal_length (b / s) - 1
  else - decimal_length ((s + b - 1) / b - 1).

Definition is_lt (c : comparison) : bool := match c with Lt => true | _ => false end.
Definition is_eq (c : comparison) : bool := match c with Eq => true | _ => false end.
Definition is_gt (c : comparison) : bool := match c with Gt => true | _ => false end.

(** The digit loop of [_Py_dg_dtoa] in mode 0: the shortest string of
    digits that reads back as the same float.  [b / s] is what is left of
    the value, in units of the digit being produced, [mlo / s] and
    [mhi / s] are half the distances to the floats below and above.  The
    boolean of the result says that the last digit, a 9, is to be rounded
    up ([round_9_up]). *)
Fixpoint shortest (fuel : nat) (even : bool) (s b mlo mhi : Z) (acc : list Z)
  : list Z * bool :=
  let dig := b / s in
  let b := b mod s in
  let j := b ?= mlo in
  let j1 := b + mhi ?= s in
  if is_eq j1 && even then
    if dig =? 9 then (acc, true)
    else (acc ++ [if is_gt j then dig + 1 else dig], false)
  else if is_lt j || is_eq j && even then
    if (b =? 0) || negb (is_gt j1) then (acc ++ [dig], false)
    else
      let j2 := 2 * b ?= s in
      if is_gt j2 || is_eq j2 && Z.odd dig then
        if dig =? 9 then (acc, true) else (acc ++ [dig + 1], false)
      else (acc ++ [dig], false)
  else if is_gt j1 then
    if dig =? 9 then (acc, true) else (acc ++ [dig + 1], false)
  else
    match fuel with
    | O => (acc ++ [dig], false)
    | S fuel' =>
        shortest fuel' even s (10 * b) (10 * mlo) (10 * mhi) (acc ++ [dig])
    end.

(** [roundoff]: the trailing nines go and the digit before them is
    incremented; when there is none the digits are ["1"] and the decimal
    exponent grows by one (the boolean). *)
Fixpoint roundoff (digits_rev : list Z) : list Z * bool :=
  match digits_rev with
  | [] => ([1], true)
  | d :: rest => if d =? 9 then roundoff rest else (rev ((d + 1) :: rest), false)
  end.

(** The digits and the position of the decimal point ([decpt]) of the
    finite positive float [m * 2^e]. *)
Definition dtoa (m e : Z) : list Z * Z :=
  let '(m, e) := normalize m e in
  let narrow := (m =? 2 ^ 52) && (-1074 <? e) in
  let b0 := 4 * m * 2 ^ Z.max 0 e in
  let s0 := 4 * 2 ^ Z.max 0 (- e) in
  let mhi0 := 2 * 2 ^ Z.max 0 e in
  let mlo0 := if narrow then 2 ^ Z.max 0 e else mhi0 in
  let k := decimal_exponent b0 s0 in
  let up := 10 ^ Z.max 0 (- k) in
  let s := s0 * 10 ^ Z.max 0 k in
  let '(digits, round_9_up) :=
    shortest (Z.to_nat (Z.log2 m) + 2) (Z.even m) s (b0 * up) (mlo0 * up) (mhi0 * up) [] in
  if round_9_up then
    let '(digits, carry) := roundoff (rev digits) in
    (digits, if carry then k + 2 else k + 1)
  else (digits, k + 1).

Definition digit_char (d : Z) : ascii := ascii_of_N (48 + Z.to_N d).

Definition digits_string (ds : list Z) : string :=
  foldr (fun d s => String (digit_char d) s) EmptyString ds.

Fixpoint take_chars (n : nat) (s : string) : string :=
  match n, s with
  | S n', String c s' => String c (take_chars n' s')
  | _, _ => EmptyString
  end.

Fixpoint drop_chars (n : nat) (s : string) : string :=
  match n, s with
  | S n', String _ s' => drop_chars n' s'
  | _, _ => s
  end.

(** [format_float_short] for the format code ['r'] with [ADD_DOT_0]: the
    exponent form when [decpt <= -4] or [decpt > 16]. *)
Definition format_repr (digits : string) (decpt : Z) : string :=
  let n := Z.of_nat (len digits) in
  if (decpt <=? -4) || (16 <? decpt) then
    let mantissa :=
      match digits with
      | String d rest =>
          if is_empty rest then digits else String d ("." +:+ rest)
      | EmptyString => EmptyString
      end in
    let exp := decpt - 1 in
    mantissa +:+ "e" +:+ (if exp <? 0 then "-" else "+")
             +:+ zfill 2 (pretty (Z.abs exp))
  else if decpt <=? 0 then
    "0." +:+ zeros (Z.to_nat (- decpt)) +:+ digits
  else if n <=? decpt then
    digits +:+ zeros (Z.to_nat (decpt - n)) +:+ ".0"
  else
    take_chars (Z.to_nat decpt) digits +:+ "." +:+ drop_chars (Z.to_nat decpt) digits.

(** [repr(x)] and [str(x)] of a float. *)
Definition repr (x : spec_float) : string :=
  match x with
  | S754_zero s => if s then "-0.0" else "0.0"
  | S754_infinity s => if s then "-inf" else "inf"
  | S754_nan => "nan"
  | S754_finite s m e =>
      let '(digits, decpt) := dtoa (Zpos m) e in
      (if s then "-" else "") +:+ format_repr (digits_string digits) decpt
  end.

(** [bool(x)]: every float but the two zeros is true. *)
Definition truthy (x : spec_float) : bool :=
  match x with
  | S754_zero _ => false
  | _ => true
  end.

(** [int(x)]: the integer part, towards zero; infinities and NaN have
    none. *)
Definition trunc (x : spec_float) : option Z :=
  match x with
  | S754_zero _ => Some 0
  | S754_finite s m e =>
      let n := if 0 <=? e then Zpos m * 2 ^ e else Zpos m / 2 ^ (- e) in
      Some (if s then - n else n)
  | _ => None
  end.

End PyFloat.

(* ===================================================================== *)
(** ** The records of the API: decoded JSON *)
(* ===================================================================== *)

#[local] Set Warnings "-register-all".

(** What [r.json()] builds: [None], booleans, integers, floats (the
    numbers written with a fraction or an exponent, and the constants
    [NaN], [Infinity] and [-Infinity] that the decoder accepts), strings,
    lists and dictionaries with string keys, in insertion order.  The
    decoder reads an integer with [int], so the integers it builds have at
    most 4300 digits. *)
Inductive value :=
| VNone
| VBool (b : bool)
| VInt (z : Z)
| VFloat (x : spec_float)
| VStr (s : string)
| VList (items : list value)
| VDict (entries : list (string * value)).

Module PyVal.

(** Truth value of an object, as [if x] and [x or y] test it. *)
Definition truthy (v : value) : bool :=
  match v with
  | VNone => false
  | VBool b => b
  | VInt z => negb (z =? 0)
  | VFloat x => PyFloat.truthy x
  | VStr s => negb (is_empty s)
  | VList l => match l with [] => false | _ => true end
  | VDict d => match d with [] => false | _ => true end
  end.

(** [int(v)] *)
Definition int (v : value) : outcome Z :=
  match v with
  | VNone => Raises TypeError
  | VBool b => Returns (if b then 1 else 0)
  | VInt z => Returns z
  | VFloat x =>
      match PyFloat.trunc x with
      | Some z => Returns z
      | None =>
          match x with
          | S754_nan => Raises ValueError
          | _ => Raises OverflowError
          end
      end
  | VStr s =>
      match int_of_str s with
      | Some z => Returns z
      | None => Raises ValueError
      end
  | VList _ => Raises TypeError
  | VDict _ => Raises TypeError
  end.

Definition dquote : ascii := ascii_of_N 34.
Definition squote : ascii := ascii_of_N 39.
Definition backslash : ascii := ascii_of_N 92.

Fixpoint contains_char (c : ascii) (s : string) : bool :=
  match s with
  | EmptyString => false
  | String a s' => Ascii.eqb a c || contains_char c s'
  end.

Definition hex_digit (n : N) : ascii :=
  if (n <? 10)%N then ascii_of_N (48 + n) else ascii_of_N (87 + n).

(** One character of [repr(s)]: the quote and the backslash are escaped,
    tab, newline and return have their letters, and the code points
    that are not printable are written [\xhh]. *)
Definition repr_char (quote c : ascii) : string :=
  let n := code c in
  if Ascii.eqb c quote || Ascii.eqb c backslash
  then String backslash (String c EmptyString)
  else if (n =? 9)%N then String backslash "t"
  else if (n =? 10)%N then String backslash "n"
  else if (n =? 13)%N then String backslash "r"
  else if ((n <? 32) || (n =? 127) || (128 <=? n) && (n <=? 160)
           || (n =? 173))%N
  then String backslash
         (String "x" (String (hex_digit (n / 16))
                        (String (hex_digit (n mod 16)) EmptyString)))
  else String c EmptyString.

Fixpoint repr_chars (quote : ascii) (s : string) : string :=
  match s with
  | EmptyString => EmptyString
  | String c s' => repr_char quote c +:+ repr_chars quote s'
  end.

(** [repr(s)] for a string: single quotes, unless the string has a single
    quote and no double quote. *)
Definition repr_str (s : string) : string :=
  let quote :=
    if contains_char squote s && negb (contains_char dquote s)
    then dquote else squote in
  String quote (repr_chars quote s +:+ String quote EmptyString).

Fixpoint join (sep : string) (l : list string) : string :=
  match l with
  | [] => EmptyString
  | [x] => x
  | x :: l' => x +:+ sep +:+ join sep l'
  end.

Fixpoint repr (v : value) : string :=
  match v with
  | VNone => "None"
  | VBool b => if b then "True" else "False"
  | VInt z => pretty z
  | VFloat x => PyFloat.repr x
  | VStr s => repr_str s
  | VList l => "[" +:+ join ", " (List.map repr l) +:+ "]"
  | VDict d =>
      "{" +:+ join ", "
                (List.map (fun kv => repr_str (fst kv) +:+ ": " +:+ repr (snd kv)) d)
          +:+ "}"
  end.

(** [str(v)] *)
Definition str (v : value) : string :=
  match v with
  | VStr s => s
  | _ => repr v
  end.

(** [d.get(k)] and [k in d] on the entries of a dictionary. *)
Definition dict_lookup (d : list (string * value)) (k : string) : option value :=
  snd <$> List.find (fun kv => String.eqb (fst kv) k) d.

Definition dict_get (d : list (string * value)) (k : string) : value :=
  default VNone (dict_lookup d k).

End PyVal.

(* ===================================================================== *)
(** ** Thread-safe token rotation *)
(* ===================================================================== *)

(** [queue.Queue] is a FIFO whose operations are atomic; [errors] is the
    dictionary of failure counts, keyed by the token string. *)
Record TokenManager := {
  queue : list string;
  errors : gmap string nat
}.

Module TM.

(** [TokenManager(tokens)] *)
Definition init (tokens : list string) : TokenManager :=
  {| queue := tokens;
     errors := list_to_map ((fun t => (t, 0%nat)) <$> tokens) |}.

Definition put (token : string) (tm : TokenManager) : TokenManager :=
  {| queue := queue tm ++ [token]; errors := errors tm |}.

(** [queue.get(block=True)]: the caller waits while the queue is empty. *)
Definition get_token (tm : TokenManager) : outcome (string * TokenManager) :=
  match queue tm with
  | [] => Blocks
  | t :: q => Returns (t, {| queue := q; errors := errors tm |})
  end.

Definition release (tm : TokenManager) (token : string) (success : bool)
  : outcome TokenManager :=
  if success then Returns (put token tm)
  else
    match errors tm !! token with
    | None => Raises KeyError
    | Some n =>
        let tm' := {| queue := queue tm;
                      errors := <[token := S n]> (errors tm) |} in
        if (MAX_RETRIES_PER_TOKEN <=? S n)%nat
        then Returns tm'
        else Returns (put token tm')
    end.

(** The failure count of a token ([0] for a string the manager never
    saw, which has no count). *)
Definition failures (tm : TokenManager) (token : string) : nat :=
  default 0%nat (errors tm !! token).

End TM.

(** Sequences of operations on the manager, as the workers issue them.
    The queue serialises them, so a run of the pool is a list of
    operations in the order in which the queue served them. *)
Inductive op :=
| GetToken
| Release (token : string) (success : bool).

(** A manager together with the tokens that are out: handed to a caller by
    [get_token] and not yet given back. *)
Record pool := {
  mgr : TokenManager;
  held : list string
}.

Module Pool.

Definition start (tokens : list string) : pool :=
  {| mgr := TM.init tokens; held := [] |}.

Fixpoint remove_first (t : string) (l : list string) : list string :=
  match l with
  | [] => []
  | x :: l' => if decide (x = t) then l' else x :: remove_first t l'
  end.

(** One operation; a [get_token] yields the token it returns. *)
Definition do_op (p : pool) (o : op) : outcome (option string * pool) :=
  match o with
  | GetToken =>
      '(t, tm) ← TM.get_token (mgr p);
      Returns (Some t, {| mgr := tm; held := t :: held p |})
  | Release t success =>
      tm ← TM.release (mgr p) t success;
      Returns (None, {| mgr := tm; held := remove_first t (held p) |})
  end.

(** The tokens returned by the [get_token] calls of a sequence, in order,
    and the pool after it. *)
Fixpoint run (p : pool) (ops : list op) : outcome (list string * pool) :=
  match ops with
  | [] => Returns ([], p)
  | o :: ops' =>
      '(r, p1) ← do_op p o;
      '(out, p2) ← run p1 ops';
      Returns (match r with Some t => t :: out | None => out end, p2)
  end.

(** The discipline of [fetch]: what is released was obtained from
    [get_token] before and is released once. *)
Fixpoint disciplined (p : pool) (ops : list op) : Prop :=
  match ops with
  | [] => True
  | o :: ops' =>
      match o with GetToken => True | Release t _ => t ∈ held p end
      /\ match do_op p o with
         | Returns (_, p1) => disciplined p1 ops'
         | _ => True
         end
  end.

End Pool.

(* ===================================================================== *)
(** ** DENUE client *)
(* ===================================================================== *)

(** What [session.get(url)] followed by [raise_for_status()] and
    [r.json()] comes to, after the retries of the adapter. *)
Inductive response :=
| HTTPOk (body : option value)   (* 2xx; [None]: the body is not JSON *)
| HTTPError (status_code : Z)    (* [raise_for_status] raised *)
| RequestException.              (* no connection, timeout, retries used up *)

(** The remote service: the response to a URL. *)
Definition service := string -> response.

(** The client owns the token manager; [requested] records the URLs the
    session was asked for, oldest first. *)
Record DENUEClient := {
  token_mgr : TokenManager;
  requested : list string
}.

Module Client.

Definition init (tokens : list string) : DENUEClient :=
  {| token_mgr := TM.init tokens; requested := [] |}.

Definition url_of (actividad area : string) (estrato : Z) (token : string)
  : string :=
  BASE_URL +:+ "/" +:+ actividad +:+ "/" +:+ area +:+ "/"
           +:+ pretty estrato +:+ "/" +:+ token.

Definition auth_failure (code : Z) : bool := (code =? 401) || (code =? 403).

(** The guard at the head of [fetch]. *)
Definition valid_request (actividad area : string) (estrato : Z)
    (allow_zero_estrato : bool) : bool :=
  validate_actividad actividad && validate_area area
  && validate_estrato (IsInt estrato) allow_zero_estrato.

(** [fetch] in two halves, so that the calls of other workers can come
    between them.  First half: take a token, build the URL, send the
    request. *)
Definition fetch_request (c : DENUEClient)
    (actividad area : string) (estrato : Z)
  : outcome (string * string * DENUEClient) :=
  '(token, tm) ← TM.get_token (token_mgr c);
  let url := url_of actividad area estrato token in
  Returns (token, url, {| token_mgr := tm; requested := requested c ++ [url] |}).

Definition with_token_mgr (c : DENUEClient) (tm : TokenManager) : DENUEClient :=
  {| token_mgr := tm; requested := requested c |}.

(** Second half: the [try] block, from the response on. *)
Definition fetch_response (api : service) (c : DENUEClient) (token url : string)
  : outcome (list value * DENUEClient) :=
  match api url with
  | HTTPOk (Some data) =>
      tm' ← TM.release (token_mgr c) token true;
      Returns (match data with VList records => records | _ => [] end,
               with_token_mgr c tm')
  | HTTPError code =>
      tm' ← TM.release (token_mgr c) token (negb (auth_failure code));
      Returns ([], with_token_mgr c tm')
  | HTTPOk None | RequestException =>
      tm' ← TM.release (token_mgr c) token true;
      Returns ([], with_token_mgr c tm')
  end.

(** [fetch]; the timeout only bounds the wait for the response and is
    not a parameter here. *)
Definition fetch (api : service) (c : DENUEClient)
    (actividad area : string) (estrato : Z) (allow_zero_estrato : bool)
  : outcome (list value * DENUEClient) :=
  if negb (valid_request actividad area estrato allow_zero_estrato)
  then Returns ([], c)
  else
    '(token, url, c') ← fetch_request c actividad area estrato;
    fetch_response api c' token url.

Definition ID_KEYS : list string :=
  ["AE"; "IdActividad"; "idActividad"; "IDE_ACTIVIDAD_ECONOMICA";
   "actividad"; "Id"; "id"].

Fixpoint first_present (d : list (string * value)) (keys : list string)
  : option value :=
  match keys with
  | [] => None
  | k :: keys' =>
      match PyVal.dict_lookup d k with
      | Some v => Some v
      | None => first_present d keys'
      end
  end.

Definition extract_id (record : value) : option string :=
  match record with
  | VList (x :: _) => Some (PyVal.str x)
  | VDict d => PyVal.str <$> first_present d ID_KEYS
  | _ => None
  end.

(** The body of the [try] in the loop of [quantify]: what is added to
    [total] for one item. *)
Definition quantify_item (item : value) : outcome Z :=
  match item with
  | VList l =>
      if (3 <=? length l)%nat then
        match l !! 2%nat with
        | Some x => PyVal.int x
        | None => Raises IndexError
        end
      else Returns 0
  | VDict d =>
      let val :=
        if PyVal.truthy (PyVal.dict_get d "Total")
        then PyVal.dict_get d "Total"
        else PyVal.dict_get d "total" in
      match val with
      | VNone => Returns 0
      | _ => PyVal.int val
      end
  | _ => Returns 0
  end.

(** The loop of [quantify] over the records. *)
Definition quantify_total (data : list value) : outcome Z :=
  for_each
    (fun total item =>
       try_except (n ← quantify_item item; Returns (total + n))
                  (Returns total))
    data 0.

Definition quantify (api : service) (c : DENUEClient)
    (actividad area : string) (estrato : Z) : outcome (Z * DENUEClient) :=
  '(data, c') ← fetch api c actividad area estrato false;
  total ← quantify_total data;
  Returns (total, c').

(** [sorted(xs, key=int)]: the keys are computed first, any [ValueError]
    of [int] escapes; the sort is stable. *)
Fixpoint insert_by_key (x : Z * string) (l : list (Z * string))
  : list (Z * string) :=
  match l with
  | [] => [x]
  | y :: l' => if fst x <? fst y then x :: l else y :: insert_by_key x l'
  end.

Definition sort_by_key (l : list (Z * string)) : list (Z * string) :=
  foldl (fun sorted x => insert_by_key x sorted) [] l.

Definition sorted_key_int (xs : list string) : outcome (list string) :=
  keyed ← for_each
            (fun acc x => k ← PyVal.int (VStr x); Returns (acc ++ [(k, x)]))
            xs [];
  Returns (snd <$> sort_by_key keyed).

(** The identifiers of the records that have one, empty strings left
    out: [[extract_id(r) for r in raw if extract_id(r)]]. *)
Definition extracted_ids (raw : list value) : list string :=
  omap (fun r => match extract_id r with
                 | Some i => if is_empty i then None else Some i
                 | None => None
                 end) raw.

(** The set [{i for i in ids if i and len(i) == 2}], kept in first-seen
    order; Python leaves the order of a set open, which shows only
    between identifiers with the same integer value. *)
Definition two_characters (ids : list string) : list string :=
  fromkeys (List.filter (fun i => negb (is_empty i) && (len i =? 2)%nat) ids).

Definition get_activities (api : service) (c : DENUEClient) (ramos_arg : string)
  : outcome (list string * DENUEClient) :=
  let ramos_arg := strip ramos_arg in
  if String.eqb ramos_arg "0" then
    '(raw, c') ← fetch api c "0" "0" 0 true;
    let ids := extracted_ids raw in
    sectors ← sorted_key_int (two_characters ids);
    Returns (sectors, c')
  else
    Returns (List.filter validate_actividad (strip <$> split "," ramos_arg), c).

End Client.

(** The contract of [quantify] in the words of the specification: the
    numeric field of a record, and the sum of the fields that can be
    coerced to an integer. *)
Module Contract.

(** Position 2 of a list-shaped record; the field [Total] of a
    dictionary-shaped record, or [total] when [Total] is absent or holds
    a false value. *)
Definition total_field (record : value) : option value :=
  match record with
  | VList l => l !! 2%nat
  | VDict d =>
      match PyVal.dict_lookup d "Total" with
      | Some v => if PyVal.truthy v then Some v else PyVal.dict_lookup d "total"
      | None => PyVal.dict_lookup d "total"
      end
  | _ => None
  end.

Definition coerced (v : value) : option Z :=
  match PyVal.int v with
  | Returns z => Some z
  | _ => None
  end.

(** What a record adds: its field as an integer, nothing when it has no
    field or the field cannot be coerced. *)
Definition contribution (record : value) : Z :=
  default 0 (total_field record ≫= coerced).

Definition sum_of_fields (data : list value) : Z :=
  foldr Z.add 0 (contribution <$> data).

End Contract.

(* ===================================================================== *)
(** ** Generating the CSV over the worker pool *)
(* ===================================================================== *)

(** [futures[future] = (ramo, estrato, area)] *)
Record task := {
  ramo : string;
  estrato : Z;
  area : string
}.

(** A data row of the CSV: [[ramo, estrato, total, area]]. *)
Record row := {
  row_ramo : string;
  row_estrato : Z;
  row_total : Z;
  row_area : string
}.

Module Executor.

(** The three nested loops that submit the tasks. *)
Definition tasks_of (ramos : list string) (estratos : list Z) (areas : list string)
  : list task :=
  flat_map (fun r =>
    flat_map (fun a =>
      List.map (fun e => {| ramo := r; estrato := e; area := a |}) estratos)
      areas)
    ramos.

(** A future is known by its rank of submission. *)
Definition future : Type := nat * task.

Definition submit_all (ts : list task) : list future :=
  zip (seq 0 (length ts)) ts.

(** Where a worker is in its call of [client.quantify]. *)
Inductive phase :=
| Started                         (* at the head of [fetch] *)
| Holding (token url : string).   (* request sent, token not yet released *)

(** The shared state while [generate_csv] runs: the client, the work
    queue of the executor, the calls in progress, the futures that are
    done and that [as_completed] has not yielded yet, and the data rows
    written after the header. *)
Record state := {
  client : DENUEClient;
  pending : list future;
  running : list (future * phase);
  finished : list (future * Z);
  csv : list row
}.

Definition row_of (f : future) (total : Z) : row :=
  {| row_ramo := ramo f.2; row_estrato := estrato f.2;
     row_total := total; row_area := area f.2 |}.


Definition valid_task (t : task) : bool :=
  Client.valid_request (ramo t) (area t) (estrato t) false.

Section Steps.

Variable api : service.
Variable max_workers : Z.

Inductive step : state -> state -> Prop :=
| step_start c f ps rs fs w :
    (* an idle worker takes the oldest task of the work queue *)
    Z.of_nat (length rs) < max_workers ->
    step {| client := c; pending := f :: ps; running := rs;
            finished := fs; csv := w |}
         {| client := c; pending := ps; running := rs ++ [(f, Started)];
            finished := fs; csv := w |}
| step_reject c f ps rs1 rs2 fs w total :
    (* [fetch] refuses the parameters: no records *)
    valid_task f.2 = false ->
    Client.quantify_total [] = Returns total ->
    step {| client := c; pending := ps;
            running := rs1 ++ (f, Started) :: rs2;
            finished := fs; csv := w |}
         {| client := c; pending := ps; running := rs1 ++ rs2;
            finished := fs ++ [(f, total)]; csv := w |}
| step_request c c' f token url ps rs1 rs2 fs w :
    (* the worker gets a token and sends its request *)
    valid_task f.2 = true ->
    Client.fetch_request c (ramo f.2) (area f.2) (estrato f.2)
      = Returns (token, url, c') ->
    step {| client := c; pending := ps;
            running := rs1 ++ (f, Started) :: rs2;
            finished := fs; csv := w |}
         {| client := c'; pending := ps;
            running := rs1 ++ (f, Holding token url) :: rs2;
            finished := fs; csv := w |}
| step_response c c' f token url data total ps rs1 rs2 fs w :
    (* the response arrives, the token is released, the records are
       summed and the future is done *)
    Client.fetch_response api c token url = Returns (data, c') ->
    Client.quantify_total data = Returns total ->
    step {| client := c; pending := ps;
            running := rs1 ++ (f, Holding token url) :: rs2;
            finished := fs; csv := w |}
         {| client := c'; pending := ps; running := rs1 ++ rs2;
            finished := fs ++ [(f, total)]; csv := w |}
| step_write c f total ps rs fs1 fs2 w :
    (* [as_completed] yields a future that is done; its row is written *)
    step {| client := c; pending := ps; running := rs;
            finished := fs1 ++ (f, total) :: fs2; csv := w |}
         {| client := c; pending := ps; running := rs;
            finished := fs1 ++ fs2; csv := w ++ [row_of f total] |}.

(** Runs: any number of steps. *)
Definition steps : state -> state -> Prop := rtc step.

(** No step is possible. *)
Definition stuck (s : state) : Prop := forall s', ~ step s s'.

End Steps.

(** The same steps as a function of the scheduler's choice, to run the
    pool on concrete inputs. *)
Inductive choice :=
| Start                 (* an idle worker takes the next task *)
| Work (i : nat)        (* the i-th call in progress moves on *)
| Write (i : nat).      (* the i-th future that is done is yielded *)

Definition take_step (api : service) (max_workers : Z) (s : state) (ch : choice)
  : option state :=
  match ch with
  | Start =>
      match pending s with
      | f :: ps =>
          if Z.of_nat (length (running s)) <? max_workers
          then Some {| client := client s; pending := ps;
                       running := running s ++ [(f, Started)];
                       finished := finished s; csv := csv s |}
          else None
      | [] => None
      end
  | Work i =>
      match running s !! i with
      | Some (f, Started) =>
          if valid_task f.2 then
            match Client.fetch_request (client s) (ramo f.2) (area f.2) (estrato f.2) with
            | Returns (token, url, c') =>
                Some {| client := c'; pending := pending s;
                        running := <[i := (f, Holding token url)]> (running s);
                        finished := finished s; csv := csv s |}
            | _ => None
            end
          else
            match Client.quantify_total [] with
            | Returns total =>
                Some {| client := client s; pending := pending s;
                        running := delete i (running s);
                        finished := finished s ++ [(f, total)]; csv := csv s |}
            | _ => None
            end
      | Some (f, Holding token url) =>
          match Client.fetch_response api (client s) token url with
          | Returns (data, c') =>
              match Client.quantify_total data with
              | Returns total =>
                  Some {| client := c'; pending := pending s;
                          running := delete i (running s);
                          finished := finished s ++ [(f, total)]; csv := csv s |}
              | _ => None
              end
          | _ => None
          end
      | None => None
      end
  | Write i =>
      match finished s !! i with
      | Some (f, total) =>
          Some {| client := client s; pending := pending s;
                  running := running s; finished := delete i (finished s);
                  csv := csv s ++ [row_of f total] |}
      | None => None
      end
  end.

Fixpoint schedule (api : service) (max_workers : Z) (s : state)
    (chs : list choice) : option state :=
  match chs with
  | [] => Some s
  | ch :: chs' =>
      match take_step api max_workers s ch with
      | Some s' => schedule api max_workers s' chs'
      | None => None
      end
  end.




(** [generate_csv] returns when every future has been yielded. *)
Definition completed (s : state) : Prop :=
  pending s = [] /\ running s = [] /\ finished s = [].


(** The state in which the loop over [as_completed] starts: every task
    submitted, the header written.  [ThreadPoolExecutor] refuses a pool
    without workers before the file is opened. *)
Definition generate_csv (c : DENUEClient) (ramos : list string)
    (estratos : list Z) (areas : list string) (max_workers : Z)
  : outcome state :=
  if max_workers <=? 0 then Raises ValueError
  else Returns {| client := c;
                  pending := submit_all (tasks_of ramos estratos areas);
                  running := []; finished := []; csv := [] |}.

End Executor.

(* ===================================================================== *)
(** ** Entry point *)
(* ===================================================================== *)

Record args := {
  arg_ramos : string;
  arg_area : string;
  arg_estratos : string;
  arg_tokens : string;
  arg_workers : Z;
  arg_output : string
}.

Definition DEFAULT_TOKENS : list string := [""; ""; ""].

Definition default_estratos : string :=
  PyVal.join "," (pretty <$> ESTRATOS_FIJOS).

Definition default_args : args :=
  {| arg_ramos := "0"; arg_area := "municipios.txt";
     arg_estratos := default_estratos;
     arg_tokens := PyVal.join "," DEFAULT_TOKENS;
     arg_workers := DEFAULT_WORKERS; arg_output := "denue_municipal.csv" |}.

(** How the script ends, short of the call of [generate_csv]. *)
Inductive main_result :=
| Exit (status : Z)
| GenerateCsv (c : DENUEClient) (actividades : list string)
    (estratos : list Z) (areas : list string) (output : string) (workers : Z).

(** The files: the lines of a file, [None] when it cannot be opened. *)
Definition files := string -> option (list string).

Definition nonblank (l : list string) : list string :=
  List.filter (fun x => negb (is_empty x)) (strip <$> l).

Definition parse_estratos (s : string) : list Z :=
  let es := omap (fun e => if validate_estrato (IsStr e) false
                           then int_of_str e else None)
                 (split "," s) in
  match es with
  | [] => ESTRATOS_FIJOS
  | _ => es
  end.

Definition main (api : service) (fs : files) (a : args) : outcome main_result :=
  let tokens := nonblank (split "," (arg_tokens a)) in
  let client := Client.init tokens in
  '(actividades, client) ← Client.get_activities api client (arg_ramos a);
  match actividades with
  | [] => Returns (Exit 1)
  | _ =>
      let estratos := parse_estratos (arg_estratos a) in
      raw_areas ←
        (if endswith ".txt" (lower (arg_area a)) then
           match fs (arg_area a) with
           | Some lines => Returns (nonblank lines)
           | None => Raises OSError
           end
         else Returns (nonblank (split "," (arg_area a))));
      match pad_areas raw_areas with
      | [] => Returns (Exit 1)
      | areas =>
          Returns (GenerateCsv client actividades estratos areas
                     (arg_output a) (arg_workers a))
      end
  end.

(* ===================================================================== *)
(** ** Invariants and auxiliary notions of the proofs *)
(* ===================================================================== *)

Definition add_key (seen : list string) (x : string) : list string :=
  if decide (x ∈ seen) then seen else seen ++ [x].

(** What the loop of [pad_areas] appends for one area. *)
Definition padded (a : string) : option string :=
  let a := strip a in
  if String.eqb a "0" then Some "0"
  else if isdigit a && (len a <=? 5)%nat then Some (zfill 5 a)
  else None.

(** The shape of an area that [pad_areas] lets through. *)
Definition area_code (a : string) : Prop :=
  a = "0" \/ (isdigit a = true /\ len a = 5%nat).

(** Every token in the queue has a failure count. *)
Definition tracked (tm : TokenManager) : Prop :=
  forall t, t ∈ queue tm -> is_Some (errors tm !! t).

(** The tokens in circulation: in the queue or out with a caller. *)
Definition circulating (p : pool) : list string := queue (mgr p) ++ held p.

(** With distinct tokens: no token is twice in circulation, and the
    tokens in circulation were supplied, have a count, and a count
    below the threshold. *)
Definition sound (tokens : list string) (p : pool) : Prop :=
  NoDup (circulating p)
  /\ forall t, t ∈ circulating p ->
               t ∈ tokens /\ is_Some (errors (mgr p) !! t)
               /\ (TM.failures (mgr p) t < MAX_RETRIES_PER_TOKEN)%nat.




(** With an empty queue, no request under way and tasks that pass the
    validation, no call of [quantify] gets past [get_token]. *)
Definition starved (s : Executor.state) : Prop :=
  queue (token_mgr (Executor.client s)) = []
  /\ Forall (fun f => Executor.valid_task f.2 = true) (Executor.pending s)
  /\ Forall (fun fp => Executor.valid_task fp.1.2 = true /\ fp.2 = Executor.Started)
            (Executor.running s).

(** The order of [sorted(..., key=int)] on identifiers that [int] reads. *)
Definition int_key (i : string) : Z := default 0 (int_of_str i).

Definition by_int_key (i j : string) : Prop := int_key i <= int_key j.

Definition by_fst (x y : Z * string) : Prop := x.1 <= y.1.

(* ===================================================================== *)
(** ** [Municipios.py]: the list of municipality codes *)
(* ===================================================================== *)

Module Municipios.

(** [s.lstrip(chars)], [s.rstrip(chars)] and [s.strip(chars)], the set of
    characters given by its membership test. *)
Fixpoint lstrip_chars (p : ascii -> bool) (s : string) : string :=
  match s with
  | EmptyString => EmptyString
  | String c s' => if p c then lstrip_chars p s' else s
  end.

Fixpoint rstrip_chars (p : ascii -> bool) (s : string) : string :=
  match s with
  | EmptyString => EmptyString
  | String c s' =>
      let r := rstrip_chars p s' in
      if p c && is_empty r then EmptyString else String c r
  end.

Definition strip_chars (p : ascii -> bool) (s : string) : string :=
  lstrip_chars p (rstrip_chars p s).

Definition is_dquote (c : ascii) : bool := Ascii.eqb c PyVal.dquote.

Definition newline : string := String (ascii_of_N 10) EmptyString.

(** A row of [csv.DictReader]: the fields by column name.  A line with
    fewer fields than the header has [None] for the columns it lacks. *)
Definition row : Type := list (string * option string).

Definition row_lookup (r : row) (k : string) : option (option string) :=
  snd <$> List.find (fun kv => String.eqb (fst kv) k) r.

(** The field [CVEGEO] of the row (the empty string when the header has
    no such column), stripped of white space and then of double quotes;
    [None] stands for the [AttributeError] of [None.strip()]. *)
Definition clave (r : row) : option string :=
  match row_lookup r "CVEGEO" with
  | Some (Some v) => Some (strip_chars is_dquote (strip v))
  | Some None => None
  | None => Some (strip_chars is_dquote (strip EmptyString))
  end.

(** How [main] ends: the lines written to [municipios.txt] and the count
    it prints, or the exception, with the lines written before it. *)
Inductive result :=
| Finished (dst : list string) (count : nat)
| AttributeError (dst : list string).

(** The loop over the rows. *)
Fixpoint extract (rows : list row) (dst : list string) (count : nat) : result :=
  match rows with
  | [] => Finished dst count
  | r :: rows' =>
      match clave r with
      | None => AttributeError dst
      | Some c =>
          if (len c =? 5)%nat && isdigit c
          then extract rows' (dst ++ [c +:+ newline]) (S count)
          else extract rows' dst count
      end
  end.

Definition main (rows : list row) : result := extract rows [] 0%nat.

(** The codes that the loop keeps, for the rows that can be read. *)
Definition kept (rows : list row) : list string :=
  omap (fun r => match clave r with
                 | Some c => if (len c =? 5)%nat && isdigit c then Some c else None
                 | None => None
                 end) rows.

End Municipios.

(* ===================================================================== *)
(** ** Further notions for the properties *)
(* ===================================================================== *)

(** A line of [municipios.txt]. *)
Definition line_of (c : string) : string := c +:+ Municipios.newline.

(** One turn of every token: each is taken and given back as a success. *)
Definition one_round (tokens : list string) : list op :=
  flat_map (fun t => [GetToken; Release t true]) tokens.

(** The tokens that are with a worker. *)
Definition in_flight (s : Executor.state) : list string :=
  omap (fun fp => match fp.2 with
                  | Executor.Holding token _ => Some token
                  | Executor.Started => None
                  end) (Executor.running s).

(** The tasks whose request is still to be sent: waiting in the work
    queue or at the head of [fetch], and valid. *)
Definition to_request (s : Executor.state) : nat :=
  (length (List.filter (fun f => Executor.valid_task f.2) (Executor.pending s))
   + length (List.filter
               (fun fp => match fp.2 with
                          | Executor.Started => Executor.valid_task fp.1.2
                          | Executor.Holding _ _ => false
                          end) (Executor.running s)))%nat.

(** A response that brings records: a 2xx whose body is a JSON list. *)
Definition brings_records (r : response) : bool :=
  match r with
  | HTTPOk (Some (VList _)) => true
  | _ => false
  end.

(** A string without white space at either end and without a comma:
    what a digit string is, among others. *)
Definition plain_digits (x : string) : Prop :=
  all_chars isdigit_char x = true /\ x <> EmptyString.

(** A string of the decimal digits 0 to 9 only, the digits that [int]
    reads; [isdigit] accepts other digits as well. *)
Definition decimal_char (c : ascii) : bool :=
  match decimal_value c with
  | Some _ => true
  | None => false
  end.

Definition decimal (x : string) : bool := all_chars decimal_char x.

(* ===================================================================== *)
(** * Properties *)
(* ===================================================================== *)

(** ** Strings *)

Section StringFacts.

Lemma len_app (s1 s2 : string) : len (s1 +:+ s2) = (len s1 + len s2)%nat.
Proof. unfold len. induction s1 as [|c s1 IH]; simpl; [done | by rewrite IH]. Qed.

Lemma len_zeros (n : nat) : len (zeros n) = n.
Proof. unfold len. induction n as [|n IH]; simpl; [done | by rewrite IH]. Qed.

Lemma all_chars_app (p : ascii -> bool) (s1 s2 : string) :
  all_chars p (s1 +:+ s2) = all_chars p s1 && all_chars p s2.
Proof.
  induction s1 as [|c s1 IH]; simpl; [done |].
  rewrite IH. by destruct (p c).
Qed.

Lemma all_chars_zeros (n : nat) : all_chars isdigit_char (zeros n) = true.
Proof. induction n as [|n IH]; simpl; [done | by rewrite IH]. Qed.

Lemma isdigit_all_chars (s : string) :
  isdigit s = true -> all_chars isdigit_char s = true /\ s <> EmptyString.
Proof. destruct s; simpl; [done | intros H; split; [done | discriminate]]. Qed.

(** A digit is neither white space nor a sign. *)
Lemma digit_not_space (c : ascii) : isdigit_char c = true -> isspace c = false.
Proof.
  destruct c as [[] [] [] [] [] [] [] []]; vm_compute; congruence.
Qed.

Lemma digit_not_sign (c : ascii) :
  isdigit_char c = true -> (Ascii.eqb c "+" || Ascii.eqb c "-")%bool = false.
Proof.
  destruct c as [[] [] [] [] [] [] [] []]; vm_compute; congruence.
Qed.

Lemma lstrip_digits (s : string) :
  all_chars isdigit_char s = true -> lstrip s = s.
Proof.
  destruct s as [|c s]; simpl; [done |].
  intros [Hc _]%andb_true_iff. by rewrite (digit_not_space c Hc).
Qed.

Lemma rstrip_digits (s : string) :
  all_chars isdigit_char s = true -> rstrip s = s.
Proof.
  induction s as [|c s IH]; simpl; [done |].
  intros [Hc Hs]%andb_true_iff.
  rewrite (digit_not_space c Hc), (IH Hs). done.
Qed.

Lemma strip_digits (s : string) :
  all_chars isdigit_char s = true -> strip s = s.
Proof.
  intros H. unfold strip. rewrite (rstrip_digits s H). by apply lstrip_digits.
Qed.

(** [zfill] of a string of digits prepends the missing zeros. *)
Lemma zfill_digits (w : nat) (s : string) :
  isdigit s = true ->
  zfill w s = zeros (w - len s) +:+ s.
Proof.
  intros Hd. unfold zfill.
  destruct (w <=? len s)%nat eqn:Hw.
  - apply Nat.leb_le in Hw.
    replace (w - len s)%nat with 0%nat by lia. done.
  - destruct s as [|c s]; [done |].
    simpl in Hd. apply andb_true_iff in Hd as [Hc _].
    by rewrite (digit_not_sign c Hc).
Qed.

Lemma zfill_digits_len (s : string) :
  isdigit s = true -> (len s <= 5)%nat -> len (zfill 5 s) = 5%nat.
Proof.
  intros Hd Hl. rewrite (zfill_digits 5 s Hd), len_app, len_zeros. lia.
Qed.

Lemma zfill_digits_isdigit (s : string) :
  isdigit s = true -> isdigit (zfill 5 s) = true.
Proof.
  intros Hd. rewrite (zfill_digits 5 s Hd).
  destruct (isdigit_all_chars s Hd) as [Ha Hne].
  assert (Hall : all_chars isdigit_char (zeros (5 - len s) +:+ s) = true).
  { by rewrite all_chars_app, all_chars_zeros, Ha. }
  destruct (zeros (5 - len s) +:+ s) eqn:E; [| exact Hall].
  exfalso. apply (f_equal len) in E. rewrite len_app in E.
  destruct s; [done | unfold len in E; simpl in E; lia].
Qed.

Lemma zfill_full (s : string) : len s = 5%nat -> zfill 5 s = s.
Proof. intros H. unfold zfill. by rewrite H. Qed.

End StringFacts.

(** ** [fromkeys] and [pad_areas] *)

Section PadAreas.

Lemma add_keys_fresh (seen l : list string) :
  NoDup (seen ++ l) -> foldl add_key seen l = seen ++ l.
Proof.
  revert seen. induction l as [|x l IH]; intros seen Hnd; simpl.
  - by rewrite app_nil_r.
  - unfold add_key at 2. destruct (decide (x ∈ seen)) as [Hin|Hnin].
    + apply NoDup_app in Hnd as (_ & Hdisj & _).
      exfalso. apply (Hdisj x Hin). left.
    + rewrite IH; rewrite <- app_assoc; simpl; done.
Qed.

Lemma add_keys_NoDup (seen l : list string) :
  NoDup seen -> NoDup (foldl add_key seen l).
Proof.
  revert seen. induction l as [|x l IH]; intros seen Hnd; simpl; [done |].
  apply IH. unfold add_key. destruct (decide (x ∈ seen)); [done |].
  apply NoDup_app. split_and!; [done | | apply NoDup_singleton].
  intros y Hy ->%list_elem_of_singleton. done.
Qed.

Lemma add_keys_elem (seen l : list string) (x : string) :
  x ∈ foldl add_key seen l <-> x ∈ seen \/ x ∈ l.
Proof.
  revert seen. induction l as [|y l IH]; intros seen; simpl.
  - rewrite elem_of_nil. tauto.
  - rewrite IH, elem_of_cons. unfold add_key.
    destruct (decide (y ∈ seen)) as [Hin|Hnin].
    + split; [tauto |]. intros [?|[->|?]]; tauto.
    + rewrite elem_of_app, list_elem_of_singleton. tauto.
Qed.

Lemma fromkeys_NoDup (l : list string) : NoDup (fromkeys l).
Proof. apply add_keys_NoDup, NoDup_nil_2. Qed.

Lemma fromkeys_elem (l : list string) (x : string) : x ∈ fromkeys l <-> x ∈ l.
Proof. unfold fromkeys. fold add_key. rewrite add_keys_elem, elem_of_nil. tauto. Qed.

Lemma fromkeys_fixed (l : list string) : NoDup l -> fromkeys l = l.
Proof. intros H. apply (add_keys_fresh [] l H). Qed.

Lemma pad_areas_steps (out areas : list string) :
  foldl pad_areas_step out areas = out ++ omap padded areas.
Proof.
  revert out. induction areas as [|a areas IH]; intros out; simpl.
  - by rewrite app_nil_r.
  - rewrite IH. unfold pad_areas_step, padded.
    destruct (String.eqb (strip a) "0"); [by rewrite <- app_assoc |].
    destruct (isdigit (strip a) && (len (strip a) <=? 5)%nat);
      [by rewrite <- app_assoc | done].
  Qed.

Lemma padded_area_code (a b : string) : padded a = Some b -> area_code b.
Proof.
  unfold padded, area_code.
  destruct (String.eqb (strip a) "0"); [intros [= <-]; by left |].
  destruct (isdigit (strip a) && (len (strip a) <=? 5)%nat) eqn:E; [| done].
  apply andb_true_iff in E as [Hd Hl]. apply Nat.leb_le in Hl.
  intros [= <-]. right. split.
  - by apply zfill_digits_isdigit.
  - by apply zfill_digits_len.
Qed.

Lemma padded_fixed (a : string) : area_code a -> padded a = Some a.
Proof.
  intros [-> | [Hd Hl]]; [reflexivity |].
  unfold padded.
  rewrite (strip_digits a (proj1 (isdigit_all_chars a Hd))).
  destruct (String.eqb a "0") eqn:E.
  - apply String.eqb_eq in E. subst a. done.
  - rewrite Hd, Hl. simpl. by rewrite zfill_full.
Qed.

Lemma omap_padded_fixed (l : list string) :
  Forall area_code l -> omap padded l = l.
Proof.
  induction 1 as [|a l Ha _ IH]; [done |].
  cbn [omap list_omap]. by rewrite (padded_fixed a Ha), IH.
Qed.

Lemma pad_areas_area_codes (areas : list string) :
  Forall area_code (pad_areas areas).
Proof.
  apply Forall_forall. intros b Hb.
  unfold pad_areas in Hb. rewrite fromkeys_elem, pad_areas_steps, app_nil_l in Hb.
  apply list_elem_of_omap in Hb as (a & _ & Ha).
  by apply padded_area_code in Ha.
Qed.

Lemma pad_areas_fixed (l : list string) :
  Forall area_code l -> NoDup l -> pad_areas l = l.
Proof.
  intros Hc Hnd. unfold pad_areas.
  rewrite pad_areas_steps, app_nil_l, (omap_padded_fixed l Hc).
  by apply fromkeys_fixed.
Qed.

End PadAreas.

(** C8.  [pad_areas] leaves a code of five digits as it is, pads ["9"] to
    ["00009"], keeps the wildcard ["0"] instead of padding it, and applied
    to its own output it returns that output. *)
Theorem pad_areas_idempotent :
  (forall code : string,
      isdigit code = true -> len code = 5%nat -> pad_areas [code] = [code])
  /\ pad_areas ["9"] = ["00009"]
  /\ pad_areas ["0"] = ["0"]
  /\ (forall areas : list string, pad_areas (pad_areas areas) = pad_areas areas).
Proof.
  split_and!.
  - intros code Hd Hl. apply pad_areas_fixed.
    + apply Forall_singleton. right. done.
    + apply NoDup_singleton.
  - reflexivity.
  - reflexivity.
  - intros areas. apply pad_areas_fixed.
    + apply pad_areas_area_codes.
    + apply fromkeys_NoDup.
Qed.

Lemma pad_areas_idempotent_witness :
  pad_areas ["01001"] = ["01001"]
  /\ pad_areas (pad_areas ["9"; " 01001 "; "0"; "x1"; "9"])
     = pad_areas ["9"; " 01001 "; "0"; "x1"; "9"].
Proof.
  split.
  - apply (proj1 pad_areas_idempotent "01001"); reflexivity.
  - apply (proj2 (proj2 (proj2 pad_areas_idempotent))).
Defined.

(** ** [int] on decimal numerals *)

Section IntOfStr.

Lemma decimal_value_pretty_char (d : N) :
  (d < 10)%N -> decimal_value (pretty_N_char d) = Some (Z.of_N d).
Proof.
  intros H.
  assert (d = 0 \/ d = 1 \/ d = 2 \/ d = 3 \/ d = 4 \/ d = 5 \/ d = 6
          \/ d = 7 \/ d = 8 \/ d = 9)%N as Hd by lia.
  repeat (destruct Hd as [-> | Hd]; [reflexivity |]). by subst.
Qed.

(** A decimal digit is no white space and no sign. *)
Lemma decimal_not_space_sign (c : ascii) :
  is_Some (decimal_value c) ->
  int_space c = false /\ Ascii.eqb c "+" = false /\ Ascii.eqb c "-" = false.
Proof.
  destruct c as [[] [] [] [] [] [] [] []]; vm_compute; intros [? ?]; done.
Qed.

(** The digits that [pretty] writes for [x] in front of [s] start with a
    digit, and reading them from the accumulator [acc] shifts [acc] and
    adds [x]. *)
Lemma read_digits_pretty_go (x : N) :
  (0 < x)%N ->
  forall s,
    (exists c rest, pretty_N_go x s = String c rest /\ is_Some (decimal_value c))
    /\ exists k : nat, forall acc,
         read_digits acc false (pretty_N_go x s)
         = read_digits (acc * 10 ^ Z.of_nat k + Z.of_N x) false s.
Proof.
  induction (N.lt_wf_0 x) as [x _ IH]. intros Hx s.
  rewrite pretty_N_go_step by done.
  pose proof (N.mod_lt x 10 ltac:(done)) as Hr.
  pose proof (N.div_mod x 10 ltac:(done)) as Hdm.
  pose proof (decimal_value_pretty_char _ Hr) as Hc.
  destruct (decide (x `div` 10 = 0)%N) as [Hq | Hq].
  - rewrite Hq, pretty_N_go_0. split.
    + eexists _, _. split; [done |]. by rewrite Hc.
    + exists 1%nat. intros acc. cbn [read_digits]. rewrite Hc.
      f_equal. lia.
  - assert (Hlt : (x `div` 10 < x)%N) by (apply N.div_lt; lia).
    destruct (IH _ Hlt ltac:(lia) (String (pretty_N_char (x `mod` 10)) s))
      as [Hfirst [k Hk]].
    split; [done |].
    exists (S k). intros acc. rewrite Hk. cbn [read_digits]. rewrite Hc.
    f_equal. rewrite Nat2Z.inj_succ, Z.pow_succ_r by lia. lia.
Qed.

(** The digits that [pretty] writes for [x] are as many as the decimal
    digits of [x]. *)
Lemma count_digits_pretty_go (x : N) :
  (0 < x)%N ->
  forall s, exists k : nat,
    count_digits (pretty_N_go x s) = (k + count_digits s)%nat
    /\ 10 ^ Z.of_nat k <= 10 * Z.of_N x
    /\ Z.of_N x < 10 ^ Z.of_nat k.
Proof.
  induction (N.lt_wf_0 x) as [x _ IH]. intros Hx s.
  rewrite pretty_N_go_step by done.
  pose proof (N.mod_lt x 10 ltac:(done)) as Hr.
  pose proof (N.div_mod x 10 ltac:(done)) as Hdm.
  pose proof (decimal_value_pretty_char _ Hr) as Hc.
  destruct (decide (x `div` 10 = 0)%N) as [Hq | Hq].
  - rewrite Hq, pretty_N_go_0. exists 1%nat. cbn [count_digits]. rewrite Hc.
    split; [done |]. change (10 ^ Z.of_nat 1) with 10. lia.
  - assert (Hlt : (x `div` 10 < x)%N) by (apply N.div_lt; lia).
    destruct (IH _ Hlt ltac:(lia) (String (pretty_N_char (x `mod` 10)) s))
      as (k & Hk & Hlo & Hhi).
    exists (S k). rewrite Hk. cbn [count_digits]. rewrite Hc.
    rewrite Nat2Z.inj_succ, Z.pow_succ_r by lia.
    split; [lia |].
    generalize dependent (x `div` 10)%N. generalize dependent (x `mod` 10)%N.
    intros r Hr _ q Hdm _ _ _ Hlo Hhi. lia.
Qed.

Lemma int_of_str_minus (s : string) :
  int_of_str ("-" +:+ s)
  = match read_number s with
    | Some (n, rest) =>
        if is_empty (skip_spaces rest) && (count_digits s <=? MAX_STR_DIGITS)%nat
        then Some (-1 * n)
        else None
    | None => None
    end.
Proof. reflexivity. Qed.

(** The numeral of [x] is read back when it has at most 4300 digits, and
    refused when it has more. *)
Lemma int_of_str_digits (x : N) :
  (0 < x)%N ->
  (Z.of_N x < 10 ^ Z.of_nat MAX_STR_DIGITS ->
   int_of_str (pretty_N_go x "") = Some (Z.of_N x)
   /\ int_of_str ("-" +:+ pretty_N_go x "") = Some (- Z.of_N x))
  /\ (10 ^ Z.of_nat MAX_STR_DIGITS <= Z.of_N x ->
      int_of_str (pretty_N_go x "") = None
      /\ int_of_str ("-" +:+ pretty_N_go x "") = None).
Proof.
  intros Hx.
  destruct (read_digits_pretty_go x Hx "") as [(c & rest & Hstr & Hdig) [k Hk]].
  destruct (count_digits_pretty_go x Hx "") as (n & Hn & Hlo & Hhi).
  destruct (decimal_not_space_sign c Hdig) as (Hsp & Hplus & Hminus).
  assert (Hnum : read_number (String c rest) = Some (Z.of_N x, "")).
  { specialize (Hk 0). rewrite Hstr in Hk. cbn [read_digits] in Hk.
    unfold read_number. destruct (decimal_value c) as [d|]; [| by destruct Hdig].
    replace (10 * 0 + d) with d in Hk by lia.
    replace (0 * 10 ^ Z.of_nat k + Z.of_N x) with (Z.of_N x) in Hk by lia.
    done. }
  cbn [count_digits] in Hn. rewrite Nat.add_0_r in Hn.
  rewrite Hstr in Hn |- *.
  assert (Hplain : int_of_str (String c rest)
                   = if (n <=? MAX_STR_DIGITS)%nat then Some (Z.of_N x) else None).
  { unfold int_of_str. cbn [skip_spaces]. rewrite Hsp, Hplus, Hminus, Hnum, Hn.
    cbn [skip_spaces is_empty andb]. destruct (n <=? MAX_STR_DIGITS)%nat; [| done].
    f_equal; lia. }
  assert (Hneg : int_of_str ("-" +:+ String c rest)
                 = if (n <=? MAX_STR_DIGITS)%nat then Some (- Z.of_N x) else None).
  { rewrite int_of_str_minus, Hnum, Hn. cbn [skip_spaces is_empty andb].
    destruct (n <=? MAX_STR_DIGITS)%nat; [| done]. f_equal; lia. }
  rewrite Hplain, Hneg. split; intros Hbound.
  - assert (Hle : (n <= MAX_STR_DIGITS)%nat).
    { assert (10 ^ Z.of_nat n < 10 ^ Z.of_nat (S MAX_STR_DIGITS)) as Hpow.
      { rewrite (Nat2Z.inj_succ MAX_STR_DIGITS), Z.pow_succ_r by lia. lia. }
      apply Z.pow_lt_mono_r_iff in Hpow; lia. }
    apply Nat.leb_le in Hle. by rewrite Hle.
  - assert (Hgt : (MAX_STR_DIGITS < n)%nat).
    { assert (10 ^ Z.of_nat MAX_STR_DIGITS < 10 ^ Z.of_nat n) as Hpow by lia.
      apply Z.pow_lt_mono_r_iff in Hpow; lia. }
    apply Nat.leb_gt in Hgt. by rewrite Hgt.
Qed.

(** [int(str(z)) == z] for an integer of at most 4300 digits: its
    decimal numeral denotes it. *)
Lemma int_of_str_pretty (z : Z) :
  Z.abs z < 10 ^ 4300 -> int_of_str (pretty z) = Some z.
Proof.
  change 4300 with (Z.of_nat MAX_STR_DIGITS). intros Hz.
  destruct z as [|p|p].
  - reflexivity.
  - apply (int_of_str_digits (N.pos p)); lia.
  - apply (int_of_str_digits (N.pos p)); lia.
Qed.

(** The numeral of an integer of more than 4300 digits is refused. *)
Lemma int_of_str_long (z : Z) :
  10 ^ 4300 <= Z.abs z -> int_of_str (pretty z) = None.
Proof.
  change 4300 with (Z.of_nat MAX_STR_DIGITS). intros Hz.
  destruct z as [|p|p].
  - exfalso. assert (0 < 10 ^ Z.of_nat MAX_STR_DIGITS) by (apply Z.pow_pos_nonneg; lia).
    lia.
  - apply (int_of_str_digits (N.pos p)); lia.
  - apply (int_of_str_digits (N.pos p)); lia.
Qed.

End IntOfStr.

(** ** [validate_estrato] *)

Section Estrato.

Lemma validate_estrato_denotes (estrato : int_or_str) (allow_zero : bool) :
  validate_estrato estrato allow_zero = true
  <-> exists e : Z, to_int estrato = Some e
                    /\ (1 <= e <= 7 \/ (allow_zero = true /\ e = 0)).
Proof.
  unfold validate_estrato. destruct (to_int estrato) as [e|].
  - destruct allow_zero; simpl.
    + destruct (e =? 0) eqn:E.
      * apply Z.eqb_eq in E. split; [| done]. intros _. exists e. auto.
      * apply Z.eqb_neq in E. rewrite andb_true_iff, Z.leb_le, Z.leb_le.
        split.
        -- intros H. exists e. auto.
        -- intros (e' & [= <-] & [H | [_ H]]); [done | lia].
    + rewrite andb_true_iff, Z.leb_le, Z.leb_le. split.
      * intros H. exists e. auto.
      * intros (e' & [= <-] & [H | [H _]]); [done | discriminate].
  - split; [discriminate |]. intros (e & H & _). discriminate.
Qed.

Lemma int_limit_large : 10 <= 10 ^ 4300.
Proof. change 10 with (10 ^ 1) at 1. apply Z.pow_le_mono_r; lia. Qed.

End Estrato.

(** C9.  [validate_estrato] answers true exactly for the values that
    denote an integer from 1 to 7, and for those that denote 0 when
    [allow_zero] is set; for every other value it answers false.  An
    integer denotes itself, a string the integer that [int] reads in it.
    So every integer [e] is valid exactly when it is in that range, as an
    [int] and written as its decimal numeral; the numeral denotes [e] as
    long as it has at most 4300 digits, the most that [int] reads, and a
    longer one denotes nothing: 4299 zeros before a 3 are valid, 4300
    zeros before it are not. *)
Theorem validate_estrato_spec (estrato : int_or_str) (allow_zero : bool) :
  (validate_estrato estrato allow_zero = true
   <-> exists e : Z, to_int estrato = Some e
                     /\ (1 <= e <= 7 \/ (allow_zero = true /\ e = 0)))
  /\ (forall e : Z,
        to_int (IsInt e) = Some e
        /\ (validate_estrato (IsInt e) allow_zero = true
            <-> 1 <= e <= 7 \/ (allow_zero = true /\ e = 0))
        /\ (validate_estrato (IsStr (pretty e)) allow_zero = true
            <-> 1 <= e <= 7 \/ (allow_zero = true /\ e = 0))
        /\ (Z.abs e < 10 ^ 4300 -> to_int (IsStr (pretty e)) = Some e)
        /\ (10 ^ 4300 <= Z.abs e -> to_int (IsStr (pretty e)) = None))
  /\ validate_estrato (IsStr (zeros 4299 +:+ "3")) false = true
  /\ validate_estrato (IsStr (zeros 4300 +:+ "3")) allow_zero = false.
Proof.
  split_and!.
  - apply validate_estrato_denotes.
  - intros e. split_and!.
    + done.
    + rewrite validate_estrato_denotes. cbn [to_int]. split.
      * by intros (e' & [= <-] & H).
      * intros H. by exists e.
    + rewrite validate_estrato_denotes. cbn [to_int].
      destruct (Z.lt_ge_cases (Z.abs e) (10 ^ 4300)) as [Hshort | Hlong].
      * rewrite (int_of_str_pretty e Hshort). split.
        -- by intros (e' & [= <-] & H).
        -- intros H. by exists e.
      * rewrite (int_of_str_long e Hlong). pose proof int_limit_large. split.
        -- by intros (e' & [=] & _).
        -- lia.
    + apply int_of_str_pretty.
    + apply int_of_str_long.
  - vm_compute. reflexivity.
  - destruct allow_zero; vm_compute; reflexivity.
Qed.

(** ** The token manager *)

Section TokenManagerFacts.

Lemma init_errors (tokens : list string) (t : string) :
  errors (TM.init tokens) !! t = if decide (t ∈ tokens) then Some 0%nat else None.
Proof.
  unfold TM.init. cbn [errors].
  induction tokens as [|x tokens IH].
  - rewrite fmap_nil, list_to_map_nil, lookup_empty. by rewrite decide_False by apply not_elem_of_nil.
  - rewrite fmap_cons, list_to_map_cons.
    destruct (decide (x = t)) as [->|Hne].
    + rewrite lookup_insert_eq. rewrite decide_True; [done | left].
    + rewrite lookup_insert_ne by done. rewrite IH.
      destruct (decide (t ∈ tokens)) as [Hin|Hnin].
      * rewrite decide_True; [done | by right].
      * rewrite decide_False; [done |].
        intros [?|?]%elem_of_cons; congruence.
Qed.

Lemma init_failures (tokens : list string) (t : string) :
  TM.failures (TM.init tokens) t = 0%nat.
Proof. unfold TM.failures. rewrite init_errors. by case_decide. Qed.

Lemma init_tracked (tokens : list string) : tracked (TM.init tokens).
Proof.
  intros t Ht. rewrite init_errors. simpl in Ht. by rewrite decide_True.
Qed.

Lemma get_token_inv (tm tm' : TokenManager) (t : string) :
  TM.get_token tm = Returns (t, tm') ->
  queue tm = t :: queue tm' /\ errors tm' = errors tm.
Proof.
  unfold TM.get_token. destruct (queue tm) as [|x q] eqn:E; [done |].
  intros [= <- <-]. done.
Qed.

Lemma get_token_blocks (tm : TokenManager) :
  queue tm = [] <-> TM.get_token tm = Blocks.
Proof. unfold TM.get_token. destruct (queue tm); split; done. Qed.

Lemma get_token_returns (tm : TokenManager) (t : string) (q : list string) :
  queue tm = t :: q ->
  TM.get_token tm = Returns (t, {| queue := q; errors := errors tm |}).
Proof. unfold TM.get_token. by intros ->. Qed.

Lemma release_success (tm : TokenManager) (t : string) :
  TM.release tm t true = Returns (TM.put t tm).
Proof. reflexivity. Qed.

(** The three ways a release without success can go. *)
Lemma release_failure (tm : TokenManager) (t : string) :
  match errors tm !! t with
  | None => TM.release tm t false = Raises KeyError
  | Some n =>
      exists tm',
        TM.release tm t false = Returns tm'
        /\ errors tm' = <[t := S n]> (errors tm)
        /\ queue tm' = if (MAX_RETRIES_PER_TOKEN <=? S n)%nat
                       then queue tm else queue tm ++ [t]
  end.
Proof.
  unfold TM.release. destruct (errors tm !! t) as [n|]; [| done].
  destruct (MAX_RETRIES_PER_TOKEN <=? S n)%nat; eexists; done.
Qed.

Lemma failures_insert (tm : TokenManager) (t t' : string) (n : nat) (m : gmap string nat) :
  errors tm = <[t := n]> m ->
  TM.failures tm t' = if decide (t = t') then n else default 0%nat (m !! t').
Proof.
  intros E. unfold TM.failures. rewrite E.
  destruct (decide (t = t')) as [->|Hne].
  - by rewrite lookup_insert_eq.
  - by rewrite lookup_insert_ne.
Qed.

(** Failure counts never go down. *)
Lemma release_failures_mono (tm tm' : TokenManager) (t t' : string) (ok : bool) :
  TM.release tm t ok = Returns tm' ->
  (TM.failures tm t' <= TM.failures tm' t')%nat.
Proof.
  destruct ok.
  - intros [= <-]. done.
  - pose proof (release_failure tm t) as H.
    destruct (errors tm !! t) as [n|] eqn:E; [| congruence].
    destruct H as (tm2 & -> & He & _). intros [= <-].
    rewrite (failures_insert tm2 t t' (S n) (errors tm) He).
    unfold TM.failures. case_decide; subst; [rewrite E; simpl; lia | done].
Qed.

Lemma release_inv (tm tm' : TokenManager) (t : string) (ok : bool) :
  TM.release tm t ok = Returns tm' ->
  (forall x, is_Some (errors tm !! x) -> is_Some (errors tm' !! x))
  /\ (forall x, x ∈ queue tm' -> x ∈ queue tm \/ x = t)
  /\ (ok = true -> queue tm' = queue tm ++ [t]).
Proof.
  destruct ok.
  - rewrite release_success. intros [= <-]. unfold TM.put. simpl.
    split_and!; [done | | done].
    intros x [?|?%list_elem_of_singleton]%elem_of_app; auto.
  - pose proof (release_failure tm t) as H.
    destruct (errors tm !! t) as [n|] eqn:E; [| congruence].
    destruct H as (tm2 & -> & He & Hq). intros [= <-]. split_and!; [| | done].
    + intros x Hx. rewrite He. destruct (decide (t = x)) as [->|Hne].
      * rewrite lookup_insert_eq. by eexists.
      * by rewrite lookup_insert_ne.
    + intros x. rewrite Hq. destruct (MAX_RETRIES_PER_TOKEN <=? S n)%nat; [auto |].
      intros [?|?%list_elem_of_singleton]%elem_of_app; auto.
Qed.

End TokenManagerFacts.

Section PoolFacts.

Variable tokens : list string.

Lemma remove_first_perm (t : string) (l : list string) :
  t ∈ l -> l ≡ₚ t :: Pool.remove_first t l.
Proof.
  induction l as [|x l IH]; [by intros ?%elem_of_nil |].
  simpl. destruct (decide (x = t)) as [->|Hne]; [done |].
  intros [?|Hin]%elem_of_cons; [congruence |].
  rewrite (IH Hin) at 1. apply Permutation_swap.
Qed.

Lemma start_sound : NoDup tokens -> sound tokens (Pool.start tokens).
Proof.
  intros Hnd. split.
  - unfold circulating. simpl. by rewrite app_nil_r.
  - unfold circulating. simpl. rewrite app_nil_r. intros t Ht. split_and!.
    + done.
    + by apply init_tracked.
    + rewrite init_failures. unfold MAX_RETRIES_PER_TOKEN. lia.
Qed.

Lemma get_token_sound (p p' : pool) (t : string) :
  sound tokens p ->
  Pool.do_op p GetToken = Returns (Some t, p') ->
  sound tokens p' /\ t ∈ tokens
  /\ (TM.failures (mgr p) t < MAX_RETRIES_PER_TOKEN)%nat.
Proof.
  intros [Hnd Hin]. unfold Pool.do_op.
  destruct (TM.get_token (mgr p)) as [[t' tm]| |] eqn:E; [| done..].
  simpl. intros [= -> <-].
  apply get_token_inv in E as [Hq He].
  assert (Hperm : circulating {| mgr := tm; held := t :: held p |}
                  ≡ₚ circulating p).
  { unfold circulating. simpl. rewrite Hq. simpl.
    by rewrite Permutation_middle. }
  split_and!.
  - split; [by rewrite Hperm |].
    intros x Hx. rewrite Hperm in Hx. unfold TM.failures. simpl. rewrite He.
    apply (Hin x Hx).
  - apply (Hin t). unfold circulating. rewrite Hq. left.
  - apply (Hin t). unfold circulating. rewrite Hq. left.
Qed.

Lemma release_sound (p p' : pool) (t : string) (ok : bool) (r : option string) :
  sound tokens p -> t ∈ held p ->
  Pool.do_op p (Release t ok) = Returns (r, p') ->
  sound tokens p'.
Proof.
  intros [Hnd Hin] Hheld. unfold Pool.do_op.
  destruct (TM.release (mgr p) t ok) as [tm| |] eqn:E; [| done..].
  simpl. intros [= <- <-].
  pose proof (remove_first_perm t (held p) Hheld) as Hperm.
  assert (Hcirc : circulating p
                  ≡ₚ t :: queue (mgr p) ++ Pool.remove_first t (held p)).
  { unfold circulating. rewrite Hperm at 1. by rewrite <- Permutation_middle. }
  assert (Hnd' : NoDup (t :: queue (mgr p) ++ Pool.remove_first t (held p))).
  { by rewrite <- Hcirc. }
  apply NoDup_cons in Hnd' as [Hfresh Hrest].
  assert (Hold : forall x, x ∈ queue (mgr p) ++ Pool.remove_first t (held p) ->
                           x <> t /\ x ∈ circulating p).
  { intros x Hx. split; [intros ->; done |]. rewrite Hcirc. by right. }
  destruct ok.
  - (* given back as a success *)
    injection E as <-. split.
    + unfold circulating, TM.put. simpl.
      rewrite <- app_assoc. simpl. rewrite <- Permutation_middle.
      by rewrite <- Hcirc.
    + intros x Hx. apply (Hin x). rewrite Hcirc.
      revert Hx. unfold circulating, TM.put. simpl.
      rewrite <- app_assoc. simpl. rewrite <- Permutation_middle. done.
  - pose proof (release_failure (mgr p) t) as Hrel.
    destruct (Hin t) as (Ht & [n Hn] & Hlt).
    { rewrite Hcirc. left. }
    rewrite Hn in Hrel. destruct Hrel as (tm2 & E2 & He & Hq).
    rewrite E2 in E. injection E as <-.
    assert (Hothers : forall x, x <> t -> x ∈ circulating p ->
               x ∈ tokens /\ is_Some (errors tm2 !! x)
               /\ (TM.failures tm2 x < MAX_RETRIES_PER_TOKEN)%nat).
    { intros x Hne Hx. destruct (Hin x Hx) as (? & ? & ?). split_and!; [done | |].
      - rewrite He, lookup_insert_ne by done. done.
      - rewrite (failures_insert tm2 t x (S n) _ He).
        rewrite decide_False by done. done. }
    destruct (MAX_RETRIES_PER_TOKEN <=? S n)%nat eqn:Hthr.
    + (* the count reached the threshold: the token is dropped *)
      split.
      * unfold circulating. simpl. by rewrite Hq.
      * unfold circulating. simpl. rewrite Hq. intros x Hx.
        destruct (Hold x Hx) as [Hne Hc]. by apply Hothers.
    + apply Nat.leb_gt in Hthr. split.
      * unfold circulating. simpl. rewrite Hq, <- app_assoc. simpl.
        rewrite <- Permutation_middle. by rewrite <- Hcirc.
      * unfold circulating. simpl. rewrite Hq, <- app_assoc. simpl.
        intros x Hx. rewrite <- Permutation_middle in Hx.
        apply elem_of_cons in Hx as [-> | Hx].
        -- split_and!; [done | |].
           ++ rewrite He, lookup_insert_eq. by eexists.
           ++ rewrite (failures_insert tm2 t t (S n) _ He).
              by rewrite decide_True.
        -- destruct (Hold x Hx) as [Hne Hc]. by apply Hothers.
Qed.

Lemma do_op_failures_mono (p p' : pool) (o : op) (r : option string) (t : string) :
  Pool.do_op p o = Returns (r, p') ->
  (TM.failures (mgr p) t <= TM.failures (mgr p') t)%nat.
Proof.
  destruct o as [|t' ok]; unfold Pool.do_op.
  - destruct (TM.get_token (mgr p)) as [[t0 tm]| |] eqn:E; [| done..].
    simpl. intros [= _ <-]. apply get_token_inv in E as [_ He].
    unfold TM.failures. simpl. by rewrite He.
  - destruct (TM.release (mgr p) t' ok) as [tm| |] eqn:E; [| done..].
    simpl. intros [= _ <-]. simpl. by eapply release_failures_mono.
Qed.

Lemma run_cons (p : pool) (o : op) (ops : list op) (out : list string) (p2 : pool) :
  Pool.run p (o :: ops) = Returns (out, p2) ->
  exists r p1 out',
    Pool.do_op p o = Returns (r, p1)
    /\ Pool.run p1 ops = Returns (out', p2)
    /\ out = match r with Some t => t :: out' | None => out' end.
Proof.
  simpl. destruct (Pool.do_op p o) as [[r p1]| |]; [| done..]. simpl.
  destruct (Pool.run p1 ops) as [[out' p2']| |] eqn:E; [| done..]. simpl.
  intros [= E1 E2]. subst. by exists r, p1, out'.
Qed.

Lemma run_failures_mono (ops : list op) (p p' : pool) (out : list string) (t : string) :
  Pool.run p ops = Returns (out, p') ->
  (TM.failures (mgr p) t <= TM.failures (mgr p') t)%nat.
Proof.
  revert p out. induction ops as [|o ops IH]; intros p out.
  - intros [= _ <-]. done.
  - intros (r & p1 & out' & Hop & Hrun & _)%run_cons.
    etrans; [by eapply do_op_failures_mono | by eapply IH].
Qed.

(** A disciplined run keeps the pool sound, and every token it hands out
    was supplied and was below the threshold when the run began. *)
Lemma run_sound (ops : list op) (p p' : pool) (out : list string) :
  sound tokens p -> Pool.disciplined p ops ->
  Pool.run p ops = Returns (out, p') ->
  sound tokens p'
  /\ forall t, t ∈ out ->
               t ∈ tokens /\ (TM.failures (mgr p) t < MAX_RETRIES_PER_TOKEN)%nat.
Proof.
  revert p out. induction ops as [|o ops IH]; intros p out Hs Hd.
  - intros [= <- <-]. split; [done |]. by intros t ?%elem_of_nil.
  - intros (r & p1 & out' & Hop & Hrun & ->)%run_cons.
    simpl in Hd. destruct Hd as [Hb Hd]. rewrite Hop in Hd.
    assert (Hs1 : sound tokens p1).
    { destruct o as [|t ok].
      - unfold Pool.do_op in Hop.
        destruct (TM.get_token (mgr p)) as [[t0 tm]| |] eqn:E; [| done..].
        simpl in Hop. injection Hop as <- <-.
        eapply (get_token_sound p _ t0 Hs). unfold Pool.do_op. by rewrite E.
      - by eapply release_sound. }
    destruct (IH p1 out' Hs1 Hd Hrun) as [Hs' Hout]. split; [done |].
    assert (Hlater : forall t, t ∈ out' ->
               t ∈ tokens /\ (TM.failures (mgr p) t < MAX_RETRIES_PER_TOKEN)%nat).
    { intros t Ht. destruct (Hout t Ht) as [? ?]. split; [done |].
      eapply Nat.le_lt_trans; [by eapply do_op_failures_mono | done]. }
    destruct r as [t0|]; [| done].
    intros t [-> | Ht]%elem_of_cons; [| by apply Hlater].
    destruct o as [|t ok].
    + by destruct (get_token_sound p p1 t0 Hs Hop) as (_ & ? & ?).
    + unfold Pool.do_op in Hop.
      destruct (TM.release (mgr p) t ok); done.
Qed.

Lemma run_app (ops1 ops2 : list op) (p p1 p2 : pool) (out1 out2 : list string) :
  Pool.run p ops1 = Returns (out1, p1) ->
  Pool.run p1 ops2 = Returns (out2, p2) ->
  Pool.run p (ops1 ++ ops2) = Returns (out1 ++ out2, p2).
Proof.
  revert p out1. induction ops1 as [|o ops1 IH]; intros p out1.
  - intros [= <- <-]. done.
  - intros (r & q & out' & Hop & Hrun & ->)%run_cons H2.
    simpl. rewrite Hop. simpl. rewrite (IH q out' Hrun H2). simpl.
    by destruct r.
Qed.

Lemma disciplined_app (ops1 ops2 : list op) (p p1 : pool) (out1 : list string) :
  Pool.disciplined p (ops1 ++ ops2) ->
  Pool.run p ops1 = Returns (out1, p1) ->
  Pool.disciplined p ops1 /\ Pool.disciplined p1 ops2.
Proof.
  revert p out1. induction ops1 as [|o ops1 IH]; intros p out1.
  - intros Hd [= _ <-]. done.
  - intros [Hb Hd] (r & q & out' & Hop & Hrun & _)%run_cons.
    rewrite Hop in Hd. destruct (IH q out' Hd Hrun) as [H1 H2].
    split; [| done]. simpl. rewrite Hop. done.
Qed.

End PoolFacts.

(** What the manager does guarantee: for a list of distinct credentials
    and operations that release only what [get_token] handed out, every
    token that [get_token] returns is one of the list, and a token whose
    failure count has reached the threshold 3 is not returned by any later
    [get_token]. *)
Lemma retired_token_never_returned
    (tokens : list string) (ops1 ops2 : list op)
    (p1 p2 : pool) (out1 out2 : list string) :
  NoDup tokens ->
  Pool.disciplined (Pool.start tokens) (ops1 ++ ops2) ->
  Pool.run (Pool.start tokens) ops1 = Returns (out1, p1) ->
  Pool.run p1 ops2 = Returns (out2, p2) ->
  (forall t, t ∈ out1 ++ out2 -> t ∈ tokens)
  /\ (forall t, (MAX_RETRIES_PER_TOKEN <= TM.failures (mgr p1) t)%nat -> t ∉ out2).
Proof.
  intros Hnd Hd H1 H2.
  destruct (disciplined_app ops1 ops2 _ _ _ Hd H1) as [Hd1 Hd2].
  destruct (run_sound tokens ops1 _ _ _ (start_sound tokens Hnd) Hd1 H1)
    as [Hs1 Hout1].
  destruct (run_sound tokens ops2 _ _ _ Hs1 Hd2 H2) as [_ Hout2].
  split.
  - intros t [Ht|Ht]%elem_of_app; [by apply Hout1 | by apply Hout2].
  - intros t Hge Ht. destruct (Hout2 t Ht) as [_ Hlt]. lia.
Qed.

Lemma retired_token_never_returned_witness :
  (forall t, t ∈ ["a"; "b"; "a"; "b"; "a"] ++ ["b"] -> t ∈ ["a"; "b"])
  /\ (forall t,
        (MAX_RETRIES_PER_TOKEN
         <= TM.failures {| queue := ["b"];
                           errors := <["a" := 3%nat]> (errors (TM.init ["a"; "b"])) |} t)%nat ->
        t ∉ ["b"]).
Proof.
  apply (retired_token_never_returned ["a"; "b"]
           [GetToken; Release "a" false; GetToken; Release "b" true;
            GetToken; Release "a" false; GetToken; GetToken;
            Release "a" false; Release "b" true]
           [GetToken]
           {| mgr := {| queue := ["b"];
                        errors := <["a" := 3%nat]> (errors (TM.init ["a"; "b"])) |};
              held := [] |}
           {| mgr := {| queue := [];
                        errors := <["a" := 3%nat]> (errors (TM.init ["a"; "b"])) |};
              held := ["b"] |}).
  - apply NoDup_cons. split; [by intros ?%list_elem_of_singleton |].
    apply NoDup_singleton.
  - vm_compute. repeat split; repeat constructor.
  - vm_compute. reflexivity.
  - reflexivity.
Defined.

(** C2, where the code departs from it: the failure counts are kept by
    token string and the queue holds one entry for every element of the
    list, which nothing deduplicates.  With a credential listed twice,
    three failed releases bring its count to the threshold, [release]
    reports the token disabled and does not put it back, and the next
    [get_token] still hands out the other copy; a further failure takes
    the count to 4, above the threshold.  The run releases only what
    [get_token] handed out. *)
Theorem retired_token_returned_again (a : string) :
  Pool.disciplined (Pool.start [a; a])
    [GetToken; Release a false; GetToken; Release a false;
     GetToken; Release a false; GetToken; Release a false]
  /\ exists p1 p2 p3,
      Pool.run (Pool.start [a; a])
        [GetToken; Release a false; GetToken; Release a false;
         GetToken; Release a false]
      = Returns ([a; a; a], p1)
      /\ TM.failures (mgr p1) a = MAX_RETRIES_PER_TOKEN
      /\ queue (mgr p1) = [a]
      /\ Pool.run p1 [GetToken] = Returns ([a], p2)
      /\ Pool.run p2 [Release a false] = Returns ([], p3)
      /\ TM.failures (mgr p3) a = S MAX_RETRIES_PER_TOKEN
      /\ queue (mgr p3) = [].
Proof.
  assert (Hround : forall tm q n h,
             queue tm = a :: q -> errors tm !! a = Some n ->
             Pool.do_op {| mgr := tm; held := h |} GetToken
             = Returns (Some a, {| mgr := {| queue := q; errors := errors tm |};
                                   held := a :: h |})
             /\ Pool.do_op {| mgr := {| queue := q; errors := errors tm |};
                              held := a :: h |} (Release a false)
                = Returns (None,
                           {| mgr := {| queue := if (MAX_RETRIES_PER_TOKEN <=? S n)%nat
                                                 then q else q ++ [a];
                                        errors := <[a := S n]> (errors tm) |};
                              held := h |})).
  { intros tm q n h Hq Hn. unfold Pool.do_op, TM.get_token, TM.release.
    cbn [mgr held queue errors]. rewrite Hq, Hn. cbn [mbind outcome_bind].
    cbn [Pool.remove_first]. rewrite decide_True by done. split; [done |].
    by destruct (MAX_RETRIES_PER_TOKEN <=? S n)%nat. }
  set (e0 := errors (TM.init [a; a])).
  assert (H0 : e0 !! a = Some 0%nat).
  { unfold e0, TM.init. cbn [errors fmap list_fmap list_to_map foldr].
    apply lookup_insert_eq. }
  destruct (Hround {| queue := [a; a]; errors := e0 |} [a] 0%nat [] eq_refl H0)
    as [G1 R1].
  destruct (Hround {| queue := [a; a]; errors := <[a := 1%nat]> e0 |} [a] 1%nat []
              eq_refl ltac:(apply lookup_insert_eq)) as [G2 R2].
  destruct (Hround {| queue := [a; a];
                      errors := <[a := 2%nat]> (<[a := 1%nat]> e0) |} [a] 2%nat []
              eq_refl ltac:(apply lookup_insert_eq)) as [G3 R3].
  destruct (Hround {| queue := [a];
                      errors := <[a := 3%nat]> (<[a := 2%nat]> (<[a := 1%nat]> e0)) |}
              [] 3%nat [] eq_refl ltac:(apply lookup_insert_eq)) as [G4 R4].
  clear Hround.
  cbn [queue errors MAX_RETRIES_PER_TOKEN Nat.leb app] in G1, R1, G2, R2, G3, R3, G4, R4.
  change (Pool.start [a; a]) with {| mgr := {| queue := [a; a]; errors := e0 |};
                                     held := [] |}.
  split.
  - cbn [Pool.disciplined]. rewrite G1, R1, G2, R2, G3, R3, G4, R4.
    cbn [held]. repeat split; apply list_elem_of_here.
  - eexists _, _, _. cbn [Pool.run].
    rewrite G1. cbn [mbind outcome_bind]. rewrite R1. cbn [mbind outcome_bind].
    rewrite G2. cbn [mbind outcome_bind]. rewrite R2. cbn [mbind outcome_bind].
    rewrite G3. cbn [mbind outcome_bind]. rewrite R3. cbn [mbind outcome_bind].
    split_and!; [reflexivity | | reflexivity | | |  | ].
    + unfold TM.failures. cbn [mgr errors]. by rewrite lookup_insert_eq.
    + rewrite G4. cbn [mbind outcome_bind]. reflexivity.
    + rewrite R4. cbn [mbind outcome_bind]. reflexivity.
    + unfold TM.failures. cbn [mgr errors]. by rewrite lookup_insert_eq.
    + reflexivity.
Qed.

(** ** [fetch] *)

Section FetchFacts.

Variable api : service.

Lemma fetch_request_inv (c c1 : DENUEClient) (actividad area : string)
    (estrato : Z) (token url : string) :
  Client.fetch_request c actividad area estrato = Returns (token, url, c1) ->
  queue (token_mgr c) = token :: queue (token_mgr c1)
  /\ errors (token_mgr c1) = errors (token_mgr c)
  /\ url = Client.url_of actividad area estrato token
  /\ requested c1 = requested c ++ [url].
Proof.
  unfold Client.fetch_request.
  destruct (TM.get_token (token_mgr c)) as [[t tm]| |] eqn:E; [| done..].
  simpl. intros [= <- <- <-]. apply get_token_inv in E as [Hq He]. done.
Qed.

(** With a count for the token, the second half of [fetch] returns, and
    what it does to the manager is a release whose flag is read off the
    response. *)
Lemma fetch_response_release (c : DENUEClient) (token url : string) :
  is_Some (errors (token_mgr c) !! token) ->
  exists data tm',
    Client.fetch_response api c token url
    = Returns (data, Client.with_token_mgr c tm')
    /\ TM.release (token_mgr c) token
         (match api url with
          | HTTPError code => negb (Client.auth_failure code)
          | _ => true
          end) = Returns tm'
    /\ (match api url with
        | HTTPOk (Some (VList records)) => data = records
        | _ => data = []
        end).
Proof.
  intros [n Hn]. unfold Client.fetch_response.
  destruct (api url) as [[data|]|code|].
  - eexists _, _. split_and!; [reflexivity | reflexivity |].
    by destruct data.
  - eexists _, _. split_and!; reflexivity.
  - destruct (Client.auth_failure code).
    + pose proof (release_failure (token_mgr c) token) as H. rewrite Hn in H.
      destruct H as (tm' & E & _). cbn [negb]. rewrite E.
      exists [], tm'. split_and!; reflexivity.
    + eexists _, _. split_and!; reflexivity.
  - eexists _, _. split_and!; reflexivity.
Qed.

Lemma auth_failure_codes (code : Z) :
  Client.auth_failure code = true <-> code = 401 \/ code = 403.
Proof. unfold Client.auth_failure. rewrite orb_true_iff, !Z.eqb_eq. done. Qed.

(** The second half of [fetch] is a release; it is a release without
    success only on a 401 or a 403. *)
Lemma fetch_response_inv (c c' : DENUEClient) (token url : string) (data : list value) :
  Client.fetch_response api c token url = Returns (data, c') ->
  exists ok tm',
    TM.release (token_mgr c) token ok = Returns tm'
    /\ c' = Client.with_token_mgr c tm'
    /\ (ok = false -> exists code, api url = HTTPError code
                                   /\ Client.auth_failure code = true).
Proof.
  unfold Client.fetch_response.
  destruct (api url) as [[body|]|code|] eqn:Eapi.
  - rewrite release_success. intros [= <- <-].
    exists true, (TM.put token (token_mgr c)). by rewrite release_success.
  - rewrite release_success. intros [= <- <-].
    exists true, (TM.put token (token_mgr c)). by rewrite release_success.
  - destruct (TM.release (token_mgr c) token (negb (Client.auth_failure code)))
      as [tm'| |] eqn:E; [| done..].
    intros [= <- <-]. exists (negb (Client.auth_failure code)), tm'.
    split_and!; [done | done |].
    intros Hok%negb_false_iff. by exists code.
  - rewrite release_success. intros [= <- <-].
    exists true, (TM.put token (token_mgr c)). by rewrite release_success.
Qed.

(** [fetch] keeps every queued token counted. *)
Lemma fetch_tracked (c c' : DENUEClient) (actividad area : string) (estrato : Z)
    (allow_zero_estrato : bool) (data : list value) :
  tracked (token_mgr c) ->
  Client.fetch api c actividad area estrato allow_zero_estrato = Returns (data, c') ->
  tracked (token_mgr c').
Proof.
  intros Htr. unfold Client.fetch.
  destruct (negb (Client.valid_request actividad area estrato allow_zero_estrato)).
  { by intros [= _ <-]. }
  destruct (Client.fetch_request c actividad area estrato)
    as [[[token url] c1]| |] eqn:Hreq; [| done..].
  cbn [mbind outcome_bind]. intros Hresp.
  apply fetch_request_inv in Hreq as (Hq & He & _ & _).
  apply fetch_response_inv in Hresp as (ok & tm' & Hrel & -> & _).
  apply release_inv in Hrel as (Hdom & Hq' & _).
  unfold Client.with_token_mgr. cbn [token_mgr].
  intros t [Ht | ->]%Hq'; apply Hdom; rewrite He; apply Htr; rewrite Hq.
  - by right.
  - left.
Qed.

End FetchFacts.

(** C5.  When the activity, the area or the stratum fails its validation,
    [fetch] returns the empty list and leaves the client as it was: no
    token taken from the queue, no count changed, no request sent. *)
Theorem fetch_rejects_invalid (api : service) (c : DENUEClient)
    (actividad area : string) (estrato : Z) (allow_zero_estrato : bool) :
  validate_actividad actividad = false
  \/ validate_area area = false
  \/ validate_estrato (IsInt estrato) allow_zero_estrato = false ->
  Client.fetch api c actividad area estrato allow_zero_estrato = Returns ([], c).
Proof.
  intros H. unfold Client.fetch, Client.valid_request.
  destruct H as [-> | [-> | ->]]; simpl; by rewrite ?andb_false_r.
Qed.

Lemma fetch_rejects_invalid_witness :
  Client.fetch (fun _ => HTTPError 401) (Client.init ["t1"]) "7" "01001" 1 false
  = Returns ([], Client.init ["t1"]).
Proof.
  apply (fetch_rejects_invalid (fun _ => HTTPError 401) (Client.init ["t1"])
           "7" "01001" 1 false).
  left. reflexivity.
Defined.

(** C4.  A call of [fetch] that sends a request ends, and the failure
    count of the token it took goes up by one exactly when the response is
    an HTTP error 401 or 403.  For every other response, any other HTTP
    status and any other exception included, the token goes back into the
    queue, behind the tokens that were waiting, with all counts as they
    were; after a 401 or 403 it goes back behind them as well unless its
    count has reached the threshold, and then the queue is left without
    it.  An HTTP error or another exception makes [fetch] return the empty
    list. *)
Theorem fetch_failure_count (api : service) (c c1 : DENUEClient)
    (actividad area : string) (estrato : Z) (allow_zero_estrato : bool)
    (token url : string) :
  Client.valid_request actividad area estrato allow_zero_estrato = true ->
  tracked (token_mgr c) ->
  Client.fetch_request c actividad area estrato = Returns (token, url, c1) ->
  exists data c',
    Client.fetch api c actividad area estrato allow_zero_estrato = Returns (data, c')
    /\ requested c' = requested c ++ [url]
    /\ (TM.failures (token_mgr c') token = S (TM.failures (token_mgr c) token)
        <-> exists code, api url = HTTPError code /\ (code = 401 \/ code = 403))
    /\ ((forall code, api url = HTTPError code -> code <> 401 /\ code <> 403) ->
        token_mgr c' = TM.put token (token_mgr c1)
        /\ errors (token_mgr c') = errors (token_mgr c))
    /\ ((exists code, api url = HTTPError code) \/ api url = RequestException
        \/ api url = HTTPOk None -> data = [])
    /\ exists waiting,
         queue (token_mgr c) = token :: waiting
         /\ ((forall code, api url = HTTPError code -> code <> 401 /\ code <> 403) ->
             queue (token_mgr c') = waiting ++ [token])
         /\ ((exists code, api url = HTTPError code /\ (code = 401 \/ code = 403)) ->
             queue (token_mgr c')
             = if (MAX_RETRIES_PER_TOKEN <=? S (TM.failures (token_mgr c) token))%nat
               then waiting else waiting ++ [token]).
Proof.
  intros Hvalid Htr Hreq.
  pose proof (fetch_request_inv c c1 _ _ _ _ _ Hreq) as (Hq & He & Hurl & Hlog).
  assert (Hsome : is_Some (errors (token_mgr c1) !! token)).
  { rewrite He. apply Htr. rewrite Hq. left. }
  destruct (fetch_response_release api c1 token url Hsome)
    as (data & tm' & Hresp & Hrel & Hdata).
  exists data, (Client.with_token_mgr c1 tm').
  assert (Hfetch : Client.fetch api c actividad area estrato allow_zero_estrato
                   = Returns (data, Client.with_token_mgr c1 tm')).
  { unfold Client.fetch. rewrite Hvalid. simpl. rewrite Hreq. simpl. done. }
  assert (Hsame : TM.failures (token_mgr c1) token = TM.failures (token_mgr c) token).
  { unfold TM.failures. by rewrite He. }
  assert (Hother : (forall code, api url = HTTPError code -> code <> 401 /\ code <> 403) ->
                   tm' = TM.put token (token_mgr c1)).
  { intros Hnot.
    assert (Hflag : match api url with
                    | HTTPError code => negb (Client.auth_failure code)
                    | _ => true
                    end = true).
    { destruct (api url) as [body|code|] eqn:Eapi; [done | | done].
      destruct (Client.auth_failure code) eqn:Eauth; [| done].
      apply auth_failure_codes in Eauth. destruct (Hnot code eq_refl). lia. }
    rewrite Hflag, release_success in Hrel. by injection Hrel as <-. }
  split_and!; [done | done | | | |].
  - (* the count goes up exactly on 401 and 403 *)
    simpl. rewrite <- Hsame.
    assert (Hput : TM.release (token_mgr c1) token true = Returns tm' ->
                   TM.failures tm' token <> S (TM.failures (token_mgr c1) token)).
    { rewrite release_success. intros [= <-]. unfold TM.failures, TM.put. simpl. lia. }
    destruct (api url) as [body|code|] eqn:Eapi.
    + split; [by intros ?%(Hput Hrel) | by intros (code & ? & _)].
    + destruct (Client.auth_failure code) eqn:Eauth; cbn [negb] in Hrel.
      * pose proof (release_failure (token_mgr c1) token) as H.
        destruct Hsome as [n Hn]. rewrite Hn in H.
        destruct H as (tm2 & E2 & He2 & _).
        rewrite E2 in Hrel. injection Hrel as <-.
        rewrite (failures_insert tm2 token token (S n) _ He2), decide_True by done.
        unfold TM.failures. rewrite Hn. simpl. split; [| done].
        intros _. exists code. split; [done | by apply auth_failure_codes].
      * split; [by intros ?%(Hput Hrel) |].
        intros (code' & [= <-] & Hc). apply auth_failure_codes in Hc. congruence.
    + split; [by intros ?%(Hput Hrel) | by intros (code & ? & _)].
  - (* every other response: a release as a success *)
    intros Hnot. simpl. rewrite (Hother Hnot).
    split; [done |]. unfold TM.put. simpl. done.
  - intros [[code Hc] | [Hc | Hc]]; by rewrite Hc in Hdata.
  - (* where the token is afterwards *)
    exists (queue (token_mgr c1)). split_and!; [done | |].
    + intros Hnot. simpl. by rewrite (Hother Hnot).
    + intros (code & Eapi & Hcode). simpl.
      apply auth_failure_codes in Hcode. rewrite Eapi, Hcode in Hrel.
      cbn [negb] in Hrel.
      pose proof (release_failure (token_mgr c1) token) as H.
      destruct Hsome as [n Hn]. rewrite Hn in H.
      destruct H as (tm2 & E2 & _ & Hq2).
      rewrite E2 in Hrel. injection Hrel as <-.
      rewrite <- Hsame. unfold TM.failures. rewrite Hn. exact Hq2.
Qed.

Lemma fetch_failure_count_witness :
  exists data c',
    Client.fetch (fun _ => HTTPError 403) (Client.init ["t1"; "t2"])
      "11" "01001" 1 false = Returns (data, c')
    /\ TM.failures (token_mgr c') "t1" = 1%nat
    /\ data = []
    /\ queue (token_mgr c') = ["t2"; "t1"].
Proof.
  destruct (fetch_failure_count (fun _ => HTTPError 403) (Client.init ["t1"; "t2"])
              {| token_mgr := {| queue := ["t2"]; errors := errors (TM.init ["t1"; "t2"]) |};
                 requested := [Client.url_of "11" "01001" 1 "t1"] |}
              "11" "01001" 1 false "t1" (Client.url_of "11" "01001" 1 "t1"))
    as (data & c' & Hf & _ & Hcount & _ & Hempty & waiting & Hwaiting & _ & Hqueue).
  - reflexivity.
  - apply init_tracked.
  - reflexivity.
  - exists data, c'. split_and!; [done | | |].
    + apply Hcount. exists 403. split; [done | by right].
    + apply Hempty. left. by exists 403.
    + injection Hwaiting as <-. rewrite Hqueue; [done |].
      exists 403. split; [done | by right].
Defined.

(** ** [quantify] *)

Section QuantifyFacts.

Lemma int_never_blocks (v : value) : PyVal.int v <> Blocks.
Proof.
  destruct v as [| b | z | x | s | l | d]; simpl; try done.
  - by destruct (PyFloat.trunc x), x.
  - by destruct (int_of_str s).
Qed.

Lemma int_coerced (v : value) :
  match PyVal.int v with
  | Returns z => default 0 (Contract.coerced v) = z
  | Raises _ => default 0 (Contract.coerced v) = 0
  | Blocks => False
  end.
Proof.
  pose proof (int_never_blocks v). unfold Contract.coerced.
  by destruct (PyVal.int v).
Qed.

(** What the body of the [try] computes, against the contract: it
    returns the contribution, or raises where the contribution is 0. *)
Lemma quantify_item_contribution (item : value) :
  match Client.quantify_item item with
  | Returns z => Contract.contribution item = z
  | Raises _ => Contract.contribution item = 0
  | Blocks => False
  end.
Proof.
  unfold Contract.contribution.
  destruct item as [| b | z | x | s | l | d];
    unfold Client.quantify_item, Contract.total_field; try done.
  - (* a list *)
    destruct (3 <=? length l)%nat eqn:Hlen.
    + destruct (l !! 2%nat) as [x|] eqn:Hx; [apply int_coerced |].
      apply Nat.leb_le in Hlen. apply lookup_ge_None in Hx. lia.
    + apply Nat.leb_gt in Hlen.
      by rewrite (proj2 (lookup_ge_None l 2)) by lia.
  - (* a dictionary *)
    unfold PyVal.dict_get.
    assert (Hfallback :
      match match default VNone (PyVal.dict_lookup d "total") with
            | VNone => Returns 0
            | _ => PyVal.int (default VNone (PyVal.dict_lookup d "total"))
            end with
      | Returns z => default 0 (PyVal.dict_lookup d "total" ≫= Contract.coerced) = z
      | Raises _ => default 0 (PyVal.dict_lookup d "total" ≫= Contract.coerced) = 0
      | Blocks => False
      end).
    { destruct (PyVal.dict_lookup d "total") as [w|]; [| done].
      cbn [mbind option_bind from_option id].
      destruct w; try apply int_coerced. done. }
    destruct (PyVal.dict_lookup d "Total") as [v|]; cbn [from_option id].
    + destruct (PyVal.truthy v) eqn:Ht; [| apply Hfallback].
      cbn [mbind option_bind from_option id].
      destruct v; try apply int_coerced. done.
    + apply Hfallback.
Qed.

(** One turn of the loop adds the contribution of the record: the [try]
    absorbs whatever [int] raises. *)
Lemma quantify_turn (total : Z) (item : value) :
  try_except (n ← Client.quantify_item item; Returns (total + n)) (Returns total)
  = Returns (total + Contract.contribution item).
Proof.
  pose proof (quantify_item_contribution item) as H.
  destruct (Client.quantify_item item); simpl.
  - by rewrite H.
  - by rewrite H, Z.add_0_r.
  - done.
Qed.

Lemma sum_of_fields_cons (item : value) (data : list value) :
  Contract.sum_of_fields (item :: data)
  = Contract.contribution item + Contract.sum_of_fields data.
Proof. reflexivity. Qed.

Lemma for_each_quantify (data : list value) (total : Z) :
  for_each
    (fun total item =>
       try_except (n ← Client.quantify_item item; Returns (total + n))
                  (Returns total))
    data total
  = Returns (total + Contract.sum_of_fields data).
Proof.
  revert total. induction data as [|item data IH]; intros total.
  - cbn [for_each]. f_equal. unfold Contract.sum_of_fields. simpl. lia.
  - cbn [for_each]. rewrite quantify_turn. cbn [mbind outcome_bind].
    rewrite IH, sum_of_fields_cons. f_equal. lia.
Qed.

Lemma quantify_total_sum (data : list value) :
  Client.quantify_total data = Returns (Contract.sum_of_fields data).
Proof. unfold Client.quantify_total. by rewrite for_each_quantify. Qed.

Lemma sum_of_fields_app (d1 d2 : list value) :
  Contract.sum_of_fields (d1 ++ d2)
  = Contract.sum_of_fields d1 + Contract.sum_of_fields d2.
Proof.
  induction d1 as [|x d1 IH]; [done |].
  rewrite <- app_comm_cons, !sum_of_fields_cons, IH. lia.
Qed.

(** A record that contributes nothing can be left out. *)
Lemma quantify_total_skip (pre post : list value) (item : value) :
  Contract.contribution item = 0 ->
  Client.quantify_total (pre ++ item :: post) = Client.quantify_total (pre ++ post).
Proof.
  intros H. rewrite !quantify_total_sum, !sum_of_fields_app, sum_of_fields_cons, H.
  done.
Qed.

End QuantifyFacts.

(** The floats of the examples: 15.7 is the binary64
    [8838314268714598 * 2^-49]. *)
Example float_examples :
  PyFloat.repr (S754_finite false 8838314268714598 (-49)) = "15.7"
  /\ PyFloat.trunc (S754_finite false 8838314268714598 (-49)) = Some 15
  /\ PyFloat.trunc (S754_finite true 8838314268714598 (-49)) = Some (-15)
  /\ PyFloat.repr (S754_finite true 5 (-1)) = "-2.5"
  /\ PyFloat.repr (S754_finite false 23 0) = "23.0"
  /\ PyFloat.repr (S754_finite false 5000000000000000 1) = "1e+16"
  /\ PyFloat.repr (S754_finite false 5902958103587057 (-69)) = "1e-05"
  /\ PyFloat.repr (S754_finite false 4503599627370497 (-2)) = "1125899906842624.2"
  /\ PyFloat.repr (S754_finite false 1 (-1074)) = "5e-324"
  /\ PyVal.int (VFloat S754_nan) = Raises ValueError
  /\ PyVal.int (VFloat (S754_infinity false)) = Raises OverflowError
  /\ PyVal.str (VList [VFloat (S754_zero true); VFloat (S754_infinity true)])
     = "[-0.0, -inf]".
Proof. vm_compute. repeat split. Qed.

(** C6.  [quantify] returns the sum, over the records that [fetch]
    returned, of the field of each record as an integer: position 2 of a
    list-shaped record, [Total] (or [total]) of a dictionary-shaped one.
    The sum is 0 for no records, and a record whose field cannot be
    coerced adds nothing, as in the example of the specification.  The
    coercion is [int]: a float is cut to its integer part (15.7 counts as
    15, -15.7 as -15; a [Total] of 0.0 is false, so [total] is read; NaN
    and the infinities cannot be coerced), and a string of more than 4300
    digits cannot be coerced. *)
Theorem quantify_sums_fields (api : service) (c c' : DENUEClient)
    (actividad area : string) (estrato : Z) (data : list value) :
  Client.fetch api c actividad area estrato false = Returns (data, c') ->
  Client.quantify api c actividad area estrato
  = Returns (Contract.sum_of_fields data, c')
  /\ (data = [] -> Contract.sum_of_fields data = 0)
  /\ (forall pre post record v,
        data = pre ++ record :: post ->
        Contract.total_field record = Some v ->
        Contract.coerced v = None ->
        Contract.sum_of_fields data = Contract.sum_of_fields (pre ++ post))
  /\ fst <$> Client.quantify
               (fun _ => HTTPOk (Some (VList [VList [VStr "A"; VInt 1; VInt 15];
                                              VList [VStr "B"; VInt 2; VStr "bad"]])))
               (Client.init ["t1"]) "11" "01001" 1
     = Returns 15
  /\ fst <$> Client.quantify
               (fun _ => HTTPOk (Some (VList
                  [VList [VStr "A"; VInt 1;
                          VFloat (S754_finite false 8838314268714598 (-49))]])))
               (Client.init ["t1"]) "11" "01001" 1
     = Returns 15
  /\ fst <$> Client.quantify
               (fun _ => HTTPOk (Some (VList
                  [VList [VStr "A"; VInt 1;
                          VFloat (S754_finite true 8838314268714598 (-49))];
                   VDict [("Total", VFloat (S754_zero false)); ("total", VStr "4")];
                   VList [VStr "B"; VInt 2; VFloat S754_nan];
                   VList [VStr "C"; VInt 3; VFloat (S754_infinity false)]])))
               (Client.init ["t1"]) "11" "01001" 1
     = Returns (-11)
  /\ fst <$> Client.quantify
               (fun _ => HTTPOk (Some (VList
                  [VList [VStr "A"; VInt 1; VStr (String "1" (zeros 4300))];
                   VList [VStr "B"; VInt 2; VStr (String "1" (zeros 4299))];
                   VList [VStr "C"; VInt 3; VInt 2]])))
               (Client.init ["t1"]) "11" "01001" 1
     = Returns (10 ^ 4299 + 2).
Proof.
  intros Hfetch. split_and!.
  - unfold Client.quantify. rewrite Hfetch. simpl.
    by rewrite quantify_total_sum.
  - by intros ->.
  - intros pre post record v -> Hfield Hco.
    rewrite !sum_of_fields_app, sum_of_fields_cons.
    unfold Contract.contribution. rewrite Hfield. simpl. rewrite Hco. done.
  - reflexivity.
  - vm_compute. reflexivity.
  - vm_compute. reflexivity.
  - vm_compute. reflexivity.
Qed.

Lemma quantify_sums_fields_witness :
  Client.quantify
    (fun _ => HTTPOk (Some (VList [VList [VStr "A"; VInt 1; VInt 15];
                                   VDict [("Total", VStr "27")];
                                   VList [VStr "B"; VInt 2; VStr "bad"]])))
    (Client.init ["t1"]) "11" "01001" 1
  = Returns (42, {| token_mgr := TM.put "t1" {| queue := []; errors := errors (TM.init ["t1"]) |};
                    requested := [Client.url_of "11" "01001" 1 "t1"] |}).
Proof.
  apply (quantify_sums_fields
           (fun _ => HTTPOk (Some (VList [VList [VStr "A"; VInt 1; VInt 15];
                                          VDict [("Total", VStr "27")];
                                          VList [VStr "B"; VInt 2; VStr "bad"]])))
           (Client.init ["t1"]) _ "11" "01001" 1
           [VList [VStr "A"; VInt 1; VInt 15]; VDict [("Total", VStr "27")];
            VList [VStr "B"; VInt 2; VStr "bad"]]).
  reflexivity.
Defined.

(** C10.  The loop of [quantify] returns for every list of records: a
    list-shaped record with fewer than three elements, a dictionary with
    neither [Total] nor [total], and a dictionary whose [Total] is false
    and whose [total] is absent or cannot be coerced, each leave the sum
    as it is, and nothing a record holds makes the loop raise. *)
Theorem quantify_total_never_raises :
  (forall data : list value, exists total : Z,
      Client.quantify_total data = Returns total)
  /\ (forall pre post l,
        (length l < 3)%nat ->
        Client.quantify_total (pre ++ VList l :: post)
        = Client.quantify_total (pre ++ post))
  /\ (forall pre post d,
        PyVal.dict_lookup d "Total" = None ->
        PyVal.dict_lookup d "total" = None ->
        Client.quantify_total (pre ++ VDict d :: post)
        = Client.quantify_total (pre ++ post))
  /\ (forall pre post d v,
        PyVal.dict_lookup d "Total" = Some v ->
        PyVal.truthy v = false ->
        (PyVal.dict_lookup d "total" = None
         \/ exists w e, PyVal.dict_lookup d "total" = Some w
                        /\ PyVal.int w = Raises e) ->
        Client.quantify_total (pre ++ VDict d :: post)
        = Client.quantify_total (pre ++ post))
  /\ (forall api c actividad area estrato data c',
        Client.fetch api c actividad area estrato false = Returns (data, c') ->
        exists total,
          Client.quantify api c actividad area estrato = Returns (total, c')).
Proof.
  split_and!.
  - intros data. eexists. apply quantify_total_sum.
  - intros pre post l Hl. apply quantify_total_skip.
    unfold Contract.contribution. simpl.
    by rewrite (proj2 (lookup_ge_None l 2)) by lia.
  - intros pre post d H1 H2. apply quantify_total_skip.
    unfold Contract.contribution. simpl. by rewrite H1, H2.
  - intros pre post d v H1 Hv H2. apply quantify_total_skip.
    unfold Contract.contribution. simpl. rewrite H1, Hv.
    destruct H2 as [-> | (w & e & -> & Hw)]; [done |].
    simpl. unfold Contract.coerced. by rewrite Hw.
  - intros api c actividad area estrato data c' Hf.
    exists (Contract.sum_of_fields data).
    unfold Client.quantify. rewrite Hf. simpl. by rewrite quantify_total_sum.
Qed.

Lemma quantify_total_never_raises_witness :
  Client.quantify_total
    ([VList [VStr "A"; VInt 1; VInt 15]] ++ VList [VStr "B"; VInt 2] :: [VNone; VInt 3])
  = Client.quantify_total ([VList [VStr "A"; VInt 1; VInt 15]] ++ [VNone; VInt 3])
  /\ Client.quantify_total
       ([] ++ VDict [("Total", VInt 0); ("total", VStr "n/a")] :: [VDict [("total", VInt 4)]])
     = Client.quantify_total ([] ++ [VDict [("total", VInt 4)]]).
Proof.
  split.
  - apply (proj1 (proj2 quantify_total_never_raises)). simpl. lia.
  - apply (proj1 (proj2 (proj2 (proj2 quantify_total_never_raises)))
             [] [VDict [("total", VInt 4)]] _ (VInt 0)).
    + reflexivity.
    + reflexivity.
    + right. exists (VStr "n/a"), ValueError. split; reflexivity.
Defined.

(** ** [get_activities] and the entry point *)

Section Discovery.

Lemma insert_by_key_perm (x : Z * string) (l : list (Z * string)) :
  Client.insert_by_key x l ≡ₚ x :: l.
Proof.
  induction l as [|y l IH]; simpl; [done |].
  destruct (x.1 <? y.1); [done |]. rewrite IH. apply Permutation_swap.
Qed.

Lemma sort_by_key_perm (l : list (Z * string)) : Client.sort_by_key l ≡ₚ l.
Proof.
  unfold Client.sort_by_key.
  assert (H : forall acc, foldl (fun sorted x => Client.insert_by_key x sorted) acc l
                          ≡ₚ acc ++ l).
  { induction l as [|x l IH]; intros acc; simpl; [by rewrite app_nil_r |].
    rewrite IH, insert_by_key_perm. simpl. apply Permutation_middle. }
  apply (H []).
Qed.

Lemma insert_by_key_hd (x y : Z * string) (l : list (Z * string)) :
  by_fst y x -> HdRel by_fst y l -> HdRel by_fst y (Client.insert_by_key x l).
Proof.
  intros Hyx Hhd. destruct l as [|z l]; simpl; [by constructor |].
  destruct (x.1 <? z.1); constructor; [done |]. by inversion Hhd.
Qed.

Lemma insert_by_key_sorted (x : Z * string) (l : list (Z * string)) :
  Sorted by_fst l -> Sorted by_fst (Client.insert_by_key x l).
Proof.
  induction 1 as [|y l Hs IH Hhd]; simpl; [by repeat constructor |].
  destruct (x.1 <? y.1) eqn:E.
  - apply Z.ltb_lt in E. constructor; [by constructor |].
    constructor. unfold by_fst. lia.
  - apply Z.ltb_ge in E. constructor; [done |].
    by apply insert_by_key_hd.
Qed.

Lemma sort_by_key_sorted (l : list (Z * string)) : Sorted by_fst (Client.sort_by_key l).
Proof.
  unfold Client.sort_by_key.
  assert (H : forall acc, Sorted by_fst acc ->
                Sorted by_fst (foldl (fun sorted x => Client.insert_by_key x sorted) acc l)).
  { induction l as [|x l IH]; intros acc Hacc; simpl; [done |].
    by apply IH, insert_by_key_sorted. }
  apply H. constructor.
Qed.

(** When [int] reads every identifier, the keys are the integers read. *)
Lemma keys_computed (xs : list string) (acc : list (Z * string)) :
  Forall (fun x => is_Some (int_of_str x)) xs ->
  for_each (fun acc x => k ← PyVal.int (VStr x); Returns (acc ++ [(k, x)])) xs acc
  = Returns (acc ++ ((fun x => (int_key x, x)) <$> xs)).
Proof.
  intros H. revert acc. induction H as [|x xs [k Hk] _ IH]; intros acc.
  - by rewrite app_nil_r.
  - cbn [for_each PyVal.int]. rewrite Hk. cbn [mbind outcome_bind].
    rewrite IH, fmap_cons, <- app_assoc. unfold int_key at 2. by rewrite Hk.
Qed.

Lemma sorted_key_int_sorts (xs : list string) :
  Forall (fun x => is_Some (int_of_str x)) xs ->
  exists ys, Client.sorted_key_int xs = Returns ys
             /\ ys ≡ₚ xs /\ Sorted by_int_key ys.
Proof.
  intros H. unfold Client.sorted_key_int.
  rewrite (keys_computed xs [] H), app_nil_l. cbn [mbind outcome_bind].
  set (keyed := (fun x => (int_key x, x)) <$> xs).
  eexists. split; [reflexivity |]. split.
  - rewrite sort_by_key_perm. unfold keyed. rewrite <- list_fmap_compose.
    by rewrite list_fmap_id.
  - assert (Hkeys : Forall (fun p => p.1 = int_key p.2) (Client.sort_by_key keyed)).
    { rewrite sort_by_key_perm. unfold keyed. by apply Forall_fmap, Forall_true. }
    pose proof (sort_by_key_sorted keyed) as Hs.
    induction Hs as [|p l Hs IH Hhd]; [constructor |].
    apply Forall_cons in Hkeys as [Hp Hl].
    rewrite fmap_cons. constructor; [by apply IH |].
    destruct Hhd as [|q l Hpq]; [constructor |].
    apply Forall_cons in Hl as [Hq _].
    rewrite fmap_cons. constructor. unfold by_int_key, by_fst in *.
    by rewrite <- Hp, <- Hq.
Qed.

(** What the discovery does return: when [int] reads every identifier of
    two characters, the identifiers of two characters, each once, in
    ascending order of their integer values. *)
Lemma get_activities_discovery (api : service) (c c' : DENUEClient)
    (raw : list value) :
  Client.fetch api c "0" "0" 0 true = Returns (raw, c') ->
  Forall (fun x => is_Some (int_of_str x))
         (Client.two_characters (Client.extracted_ids raw)) ->
  exists sectors,
    Client.get_activities api c "0" = Returns (sectors, c')
    /\ NoDup sectors
    /\ Sorted by_int_key sectors
    /\ forall i, i ∈ sectors <-> i ∈ Client.extracted_ids raw /\ len i = 2%nat.
Proof.
  intros Hfetch Hint.
  destruct (sorted_key_int_sorts _ Hint) as (ys & Hsort & Hperm & Hsorted).
  exists ys. unfold Client.get_activities.
  change (strip "0") with "0". cbn [String.eqb Ascii.eqb Bool.eqb].
  rewrite Hfetch. cbn [mbind outcome_bind]. rewrite Hsort. cbn [mbind outcome_bind].
  split_and!; [done | | done |].
  - rewrite Hperm. apply fromkeys_NoDup.
  - intros i. rewrite Hperm. unfold Client.two_characters.
    rewrite fromkeys_elem, list_elem_of_In, filter_In, <- list_elem_of_In.
    rewrite andb_true_iff, Nat.eqb_eq, negb_true_iff.
    split; [tauto |]. intros [Hin Hlen]. split_and!; [done | | done].
    destruct i; [done | reflexivity].
Qed.

End Discovery.

(** The example of the specification: four raw identifiers, two kept. *)
Example get_activities_discovery_example :
  fst <$> Client.get_activities
            (fun _ => HTTPOk (Some (VList [VList [VStr "23"]; VList [VStr "07"];
                                           VDict [("AE", VStr "07")]; VList [VStr "9"]])))
            (Client.init ["t1"; "t2"]) "0"
  = Returns ["07"; "23"].
Proof. reflexivity. Qed.

(** C7, where the code departs from it: the discovery keeps every
    identifier of two characters, digits or not.  ["-7"] is kept and
    sorted as the integer -7; with ["ab"] the sort by [int] raises
    [ValueError]; [validate_actividad], which the explicit list goes
    through, refuses both. *)
Theorem get_activities_keeps_two_characters :
  fst <$> Client.get_activities
            (fun _ => HTTPOk (Some (VList [VList [VStr "23"]; VList [VStr "-7"]])))
            (Client.init ["t1"]) "0"
  = Returns ["-7"; "23"]
  /\ Client.get_activities
       (fun _ => HTTPOk (Some (VList [VList [VStr "23"]; VList [VStr "ab"]])))
       (Client.init ["t1"]) "0"
     = Raises ValueError
  /\ validate_actividad "-7" = false
  /\ validate_actividad "ab" = false.
Proof. split_and!; reflexivity. Qed.

Section MainFacts.

Lemma fetch_blocks_without_tokens (api : service) (c : DENUEClient)
    (actividad area : string) (estrato : Z) (allow_zero_estrato : bool) :
  queue (token_mgr c) = [] ->
  Client.valid_request actividad area estrato allow_zero_estrato = true ->
  Client.fetch api c actividad area estrato allow_zero_estrato = Blocks.
Proof.
  intros Hq Hv. unfold Client.fetch, Client.fetch_request. rewrite Hv.
  apply get_token_blocks in Hq. cbn [negb]. by rewrite Hq.
Qed.

End MainFacts.


(** ** The worker pool *)

Section ExecutorFacts.

Variable api : service.
Variable max_workers : Z.

Local Abbreviation step := (Executor.step api max_workers).
Local Abbreviation steps := (Executor.steps api max_workers).
Local Abbreviation stuck := (Executor.stuck api max_workers).

(** *** No task is lost or doubled *)



(** *** Every run ends *)



(** *** The scheduler function takes steps of the relation *)

Lemma take_step_sound (s s' : Executor.state) (ch : Executor.choice) :
  Executor.take_step api max_workers s ch = Some s' -> step s s'.
Proof.
  destruct s as [c ps rs fs w]. destruct ch as [|i|i]; simpl.
  - destruct ps as [|f ps]; [done |].
    destruct (Z.of_nat (length rs) <? max_workers) eqn:E; [| done].
    intros [= <-]. apply Z.ltb_lt in E. by constructor.
  - destruct (rs !! i) as [[f ph]|] eqn:Hi; [| done].
    pose proof (take_drop_middle rs i _ Hi) as Hrs.
    destruct ph as [|token url].
    + destruct (Executor.valid_task f.2) eqn:Hv.
      * destruct (Client.fetch_request c (ramo f.2) (area f.2) (estrato f.2))
          as [[[token url] c']| |] eqn:Hreq; [| done..].
        intros [= <-]. rewrite insert_take_drop by by eapply lookup_lt_Some.
        rewrite <- Hrs at 1. by econstructor.
      * destruct (Client.quantify_total []) as [total| |] eqn:Hq; [| done..].
        intros [= <-]. rewrite delete_take_drop.
        rewrite <- Hrs at 1. by econstructor.
    + destruct (Client.fetch_response api c token url)
        as [[data c']| |] eqn:Hresp; [| done..].
      destruct (Client.quantify_total data) as [total| |] eqn:Hq; [| done..].
      intros [= <-]. rewrite delete_take_drop.
      rewrite <- Hrs at 1. by econstructor.
  - destruct (fs !! i) as [[f total]|] eqn:Hi; [| done].
    pose proof (take_drop_middle fs i _ Hi) as Hfs.
    intros [= <-]. rewrite delete_take_drop.
    rewrite <- Hfs at 1. by econstructor.
Qed.

Lemma schedule_sound (chs : list Executor.choice) (s s' : Executor.state) :
  Executor.schedule api max_workers s chs = Some s' -> steps s s'.
Proof.
  revert s. induction chs as [|ch chs IH]; intros s; simpl.
  - intros [= <-]. apply rtc_refl.
  - destruct (Executor.take_step api max_workers s ch) as [s1|] eqn:E; [| done].
    intros H. eapply rtc_l; [by apply (take_step_sound _ _ ch) | by apply IH].
Qed.

End ExecutorFacts.

Ltac state_fields :=
  cbn [Executor.client Executor.pending Executor.running Executor.finished
       Executor.csv] in *.

Section ExecutorProgress.

Variable api : service.
Variable max_workers : Z.

Local Abbreviation step := (Executor.step api max_workers).
Local Abbreviation steps := (Executor.steps api max_workers).
Local Abbreviation stuck := (Executor.stuck api max_workers).



(** *** Where a run can stop *)


(** *** When no worker is left waiting *)






End ExecutorProgress.

Section GenerateCsv.

Lemma length_tasks_of (ramos : list string) (estratos : list Z) (areas : list string) :
  length (Executor.tasks_of ramos estratos areas)
  = (length ramos * length areas * length estratos)%nat.
Proof.
  unfold Executor.tasks_of.
  induction ramos as [|r ramos IH]; simpl; [done |].
  rewrite length_app, IH. clear IH.
  assert (H : forall l : list string,
             length (flat_map (fun a => List.map (fun e => {| ramo := r; estrato := e; area := a |}) estratos) l)
             = (length l * length estratos)%nat).
  { induction l as [|a l IHl]; simpl; [done |].
    rewrite length_app, IHl, length_map. done. }
  rewrite H. lia.
Qed.

Lemma submit_all_tasks (ts : list task) : snd <$> Executor.submit_all ts = ts.
Proof. unfold Executor.submit_all. apply snd_zip. by rewrite length_seq. Qed.

End GenerateCsv.



(** The scenario of the specification: two credentials, one activity, one
    area, strata 1 and 2.  Two tasks; here the second finishes first, and
    the two rows are written in the order of completion. *)
Example generate_csv_end_to_end :
  let api : service := fun url =>
    if endswith "/1/t1" url
    then HTTPOk (Some (VList [VList [VStr "11"; VStr "01001"; VInt 15]]))
    else HTTPOk (Some (VList [VDict [("Total", VStr "4")]; VDict [("Total", VInt 3)]])) in
  exists s0 s,
    Executor.generate_csv (Client.init ["t1"; "t2"]) ["11"] [1; 2] ["01001"] 50
    = Returns s0
    /\ Executor.pending s0
       = [(0%nat, {| ramo := "11"; estrato := 1; area := "01001" |});
          (1%nat, {| ramo := "11"; estrato := 2; area := "01001" |})]
    /\ Executor.schedule api 50 s0
         [Executor.Start; Executor.Start; Executor.Work 0; Executor.Work 1;
          Executor.Work 1; Executor.Write 0; Executor.Work 0; Executor.Write 0]
       = Some s
    /\ Executor.completed s
    /\ Executor.csv s
       = [{| row_ramo := "11"; row_estrato := 2; row_total := 7; row_area := "01001" |};
          {| row_ramo := "11"; row_estrato := 1; row_total := 15; row_area := "01001" |}]
    /\ queue (token_mgr (Executor.client s)) = ["t2"; "t1"].
Proof.
  simpl. eexists _, _. split; [reflexivity |]. split; [reflexivity |].
  split; [vm_compute; reflexivity |]. repeat split.
Qed.

Section WithoutTokens.

Variable api : service.
Variable max_workers : Z.

(** In a starved state the only steps are a worker taking a task and the
    writing of a row that is ready: nothing new gets done. *)
Lemma step_starved (s s' : Executor.state) :
  starved s -> Executor.step api max_workers s s' ->
  starved s'
  /\ (length (Executor.pending s') + length (Executor.running s')
      = length (Executor.pending s) + length (Executor.running s))%nat
  /\ (length (Executor.finished s') + length (Executor.csv s')
      = length (Executor.finished s) + length (Executor.csv s))%nat.
Proof.
  intros (Hq & Hp & Hr) Hstep.
  destruct Hstep; unfold starved; state_fields.
  - apply Forall_cons in Hp as [Hv Hp]. split_and!; [done | done | | | done].
    + apply Forall_app. split; [done |]. by apply Forall_singleton.
    + rewrite length_app. simpl. lia.
  - apply Forall_app in Hr as [_ [[Hv _] _]%Forall_cons]. simpl in Hv. congruence.
  - match goal with H : Client.fetch_request _ _ _ _ = _ |- _ =>
      apply fetch_request_inv in H as (Hq' & _) end.
    congruence.
  - apply Forall_app in Hr as [_ [[_ Hph] _]%Forall_cons]. done.
  - split_and!; [done.. |]. rewrite !length_app. simpl. lia.
Qed.

Lemma steps_starved (s s' : Executor.state) :
  starved s -> Executor.steps api max_workers s s' ->
  starved s'
  /\ (length (Executor.pending s') + length (Executor.running s')
      = length (Executor.pending s) + length (Executor.running s))%nat
  /\ (length (Executor.finished s') + length (Executor.csv s')
      = length (Executor.finished s) + length (Executor.csv s))%nat.
Proof.
  intros Hs Hsteps. induction Hsteps as [|s1 s2 s3 H12 _ IH]; [done |].
  destruct (step_starved s1 s2 Hs H12) as (Hs2 & Hl2 & Hw2).
  destruct (IH Hs2) as (Hs3 & Hl3 & Hw3). split_and!; [done | lia | lia].
Qed.

End WithoutTokens.


(** C3, where the code departs from it: with no credential the script
    does not exit.  When the activities are to be discovered it blocks in
    the first [get_token]; with an explicit list it goes on to
    [generate_csv] with the empty queue, where every call of [quantify]
    for a valid task blocks, so that no row is written and the run has no
    end.  The script does exit with status 1 when
    there is no activity. *)
Theorem main_without_tokens_never_exits (api : service) (fs : files) (a : args) :
  nonblank (split "," (arg_tokens a)) = [] ->
  (strip (arg_ramos a) = "0" -> main api fs a = Blocks)
  /\ (arg_ramos a = "11" -> arg_area a = "01001" -> arg_estratos a = "1" ->
      main api fs a
      = Returns (GenerateCsv (Client.init []) ["11"] [1] ["01001"]
                   (arg_output a) (arg_workers a)))
  /\ (forall workers s0 s,
        Executor.generate_csv (Client.init []) ["11"] [1] ["01001"] workers
        = Returns s0 ->
        Executor.steps api workers s0 s ->
        Executor.csv s = [] /\ ~ Executor.completed s)
  /\ (forall t, Executor.valid_task t = true ->
        Client.quantify api (Client.init []) (ramo t) (area t) (estrato t) = Blocks)
  /\ (Client.get_activities api (Client.init []) "ab" = Returns ([], Client.init [])
      /\ forall a', arg_ramos a' = "ab" -> arg_tokens a' = arg_tokens a ->
                    main api fs a' = Returns (Exit 1)).
Proof.
  intros Htok. split_and!.
  - intros Hr. unfold main. rewrite Htok.
    unfold Client.get_activities. rewrite Hr. cbn [String.eqb Ascii.eqb Bool.eqb].
    rewrite fetch_blocks_without_tokens; done.
  - intros Hr Ha He. unfold main. rewrite Htok, Hr, Ha, He. reflexivity.
  - intros workers s0 s. unfold Executor.generate_csv.
    destruct (workers <=? 0); [done |]. intros [= <-] Hsteps.
    apply steps_starved in Hsteps as (_ & Hlen & Hrows).
    + simpl in Hlen, Hrows. split.
      * destruct (Executor.csv s); [done | simpl in Hrows; lia].
      * intros (Hp & Hr & _). rewrite Hp, Hr in Hlen. simpl in Hlen. lia.
    + unfold starved. simpl. split_and!; [done | | done].
      apply Forall_singleton. reflexivity.
  - intros t Ht. unfold Client.quantify.
    by rewrite (fetch_blocks_without_tokens api (Client.init []) _ _ _ _ eq_refl Ht).
  - reflexivity.
  - intros a' Hr Ht. unfold main. rewrite Ht, Htok, Hr. reflexivity.
Qed.

Lemma main_without_tokens_never_exits_witness :
  main (fun _ => RequestException) (fun _ => None) default_args = Blocks.
Proof.
  apply (main_without_tokens_never_exits
           (fun _ => RequestException) (fun _ => None) default_args);
    reflexivity.
Defined.

(* ===================================================================== *)
(** * Further properties *)
(* ===================================================================== *)

(** ** Splitting and joining *)

Section SplitJoin.

Variable sep : ascii.

Lemma split_whole (x : string) :
  PyVal.contains_char sep x = false -> split sep x = [x].
Proof.
  induction x as [|c x IH]; [done |].
  simpl. intros [Hc Hx]%orb_false_iff. by rewrite Hc, (IH Hx).
Qed.

Lemma split_cons (x rest : string) :
  PyVal.contains_char sep x = false ->
  split sep (x +:+ String sep rest) = x :: split sep rest.
Proof.
  induction x as [|c x IH].
  - intros _. simpl. by rewrite Ascii.eqb_refl.
  - simpl. intros [Hc Hx]%orb_false_iff. by rewrite Hc, (IH Hx).
Qed.

(** [sep.join(l).split(sep) == l] for a list that is not empty and whose
    elements do not hold the separator. *)
Lemma split_join (l : list string) :
  l <> [] ->
  Forall (fun x => PyVal.contains_char sep x = false) l ->
  split sep (PyVal.join (String sep EmptyString) l) = l.
Proof.
  intros Hne H. induction H as [|x l Hx Hl IH]; [done |].
  destruct l as [|y l].
  - by apply split_whole.
  - cbn [PyVal.join]. change (String sep "" +:+ ?s) with (String sep s).
    rewrite (split_cons x _ Hx). f_equal. by apply IH.
Qed.

End SplitJoin.

Section StripFacts.

Lemma digit_not_comma (c : ascii) : isdigit_char c = true -> Ascii.eqb c "," = false.
Proof. destruct c as [[] [] [] [] [] [] [] []]; vm_compute; congruence. Qed.

Lemma digits_no_comma (x : string) :
  all_chars isdigit_char x = true -> PyVal.contains_char "," x = false.
Proof.
  induction x as [|c x IH]; [done |].
  cbn [all_chars PyVal.contains_char]. intros [Hc Hx]%andb_true_iff.
  by rewrite (digit_not_comma c Hc), (IH Hx).
Qed.

Lemma lstrip_nonspace (c : ascii) (s : string) :
  isspace c = false -> lstrip (String c s) = String c s.
Proof. intros H. simpl. by rewrite H. Qed.

Lemma rstrip_cons (c : ascii) (s : string) :
  rstrip (String c s)
  = if isspace c && is_empty (rstrip s) then EmptyString else String c (rstrip s).
Proof. reflexivity. Qed.

Lemma rstrip_app (s t : string) :
  rstrip t <> EmptyString -> rstrip (s +:+ t) = s +:+ rstrip t.
Proof.
  intros Ht. induction s as [|c s IH]; [done |].
  change (String c s +:+ t) with (String c (s +:+ t)).
  change (String c s +:+ rstrip t) with (String c (s +:+ rstrip t)).
  rewrite rstrip_cons, IH.
  destruct (s +:+ rstrip t) eqn:E.
  - destruct s; [by destruct Ht | discriminate].
  - cbn [is_empty]. by rewrite andb_false_r.
Qed.

Lemma rstrip_newline (s : string) :
  rstrip (s +:+ Municipios.newline) = rstrip s.
Proof.
  induction s as [|c s IH]; [reflexivity |].
  change (String c s +:+ Municipios.newline) with (String c (s +:+ Municipios.newline)).
  by rewrite !rstrip_cons, IH.
Qed.

Lemma validate_actividad_plain (x : string) :
  validate_actividad x = true -> plain_digits x.
Proof.
  unfold validate_actividad. intros [H | [H _]%andb_true_iff]%orb_true_iff.
  - apply String.eqb_eq in H. by subst.
  - destruct (isdigit_all_chars x H). by split.
Qed.

Lemma area_code_valid (a : string) : area_code a -> validate_area a = true.
Proof.
  intros [-> | [Hd Hl]]; [reflexivity |].
  unfold validate_area. by rewrite Hd, Hl, orb_true_r.
Qed.

(** A list of digit strings joined by commas has no white space at
    either end. *)
Lemma strip_joined (l : list string) :
  l <> [] -> Forall plain_digits l ->
  strip (PyVal.join "," l) = PyVal.join "," l.
Proof.
  intros Hne H.
  assert (Hr : rstrip (PyVal.join "," l) = PyVal.join "," l
               /\ PyVal.join "," l <> EmptyString).
  { induction H as [|x l [Hx Hxe] Hl IH]; [done |].
    destruct l as [|y l].
    - cbn [PyVal.join]. by rewrite rstrip_digits.
    - destruct IH as [IH1 IH2]; [done |]. cbn [PyVal.join] in *.
      split.
      + rewrite rstrip_app; rewrite rstrip_app; rewrite ?IH1; done.
      + by destruct x. }
  destruct Hr as [Hr _]. unfold strip. rewrite Hr.
  destruct H as [|x l [Hx Hxe] Hl]; [done |].
  destruct x as [|c x]; [done |].
  cbn [all_chars] in Hx. apply andb_true_iff in Hx as [Hc _].
  pose proof (digit_not_space c Hc) as Hsp.
  destruct l as [|y l].
  - exact (lstrip_nonspace c x Hsp).
  - exact (lstrip_nonspace c (x +:+ "," +:+ PyVal.join "," (y :: l)) Hsp).
Qed.

End StripFacts.

(** ** [pad_areas] *)

(** X1.  Whatever the input, [pad_areas] returns a list without
    duplicates in which every element passes [validate_area]; an element
    is in it exactly when it is the padded form of some given area. *)
Theorem pad_areas_valid (areas : list string) :
  NoDup (pad_areas areas)
  /\ Forall (fun a => validate_area a = true) (pad_areas areas)
  /\ forall x, x ∈ pad_areas areas <-> exists a, a ∈ areas /\ padded a = Some x.
Proof.
  split_and!.
  - apply fromkeys_NoDup.
  - eapply Forall_impl; [apply pad_areas_area_codes | apply area_code_valid].
  - intros x. unfold pad_areas.
    by rewrite fromkeys_elem, pad_areas_steps, app_nil_l, list_elem_of_omap.
Qed.

(** ** The strata of the command line *)

Section Estratos.

Lemma estrato_numeral (e : Z) :
  1 <= e <= 7 ->
  PyVal.contains_char "," (pretty e) = false
  /\ validate_estrato (IsStr (pretty e)) false = true.
Proof.
  intros H.
  assert (e = 1 \/ e = 2 \/ e = 3 \/ e = 4 \/ e = 5 \/ e = 6 \/ e = 7) as He by lia.
  repeat (destruct He as [-> | He]; [by split |]). by subst.
Qed.

Lemma validate_estrato_range (x : int_or_str) (e : Z) :
  validate_estrato x false = true -> to_int x = Some e -> 1 <= e <= 7.
Proof.
  unfold validate_estrato. intros H He. rewrite He in H. simpl in H.
  apply andb_true_iff in H as [?%Z.leb_le ?%Z.leb_le]. done.
Qed.

Lemma parse_estratos_in_range (s : string) :
  Forall (fun e => 1 <= e <= 7) (parse_estratos s) /\ parse_estratos s <> [].
Proof.
  unfold parse_estratos.
  set (keep := fun e => if validate_estrato (IsStr e) false then int_of_str e else None).
  assert (Hrange : Forall (fun e => 1 <= e <= 7) (omap keep (split "," s))).
  { apply Forall_forall. intros e (x & _ & Hx)%list_elem_of_omap. unfold keep in Hx.
    destruct (validate_estrato (IsStr x) false) eqn:Hv; [| done].
    by apply (validate_estrato_range (IsStr x)). }
  destruct (omap keep (split "," s)); [| done].
  split; [| done]. unfold ESTRATOS_FIJOS. repeat constructor; lia.
Qed.

End Estratos.

(** X2.  The strata that the entry point works with are never empty and
    all lie between 1 and 7, whatever the argument; when no item of the
    argument is a valid stratum they are the fixed strata 1 to 7. *)
Theorem parse_estratos_range (s : string) :
  parse_estratos s <> []
  /\ Forall (fun e => 1 <= e <= 7) (parse_estratos s)
  /\ (Forall (fun x => validate_estrato (IsStr x) false = false) (split "," s) ->
      parse_estratos s = ESTRATOS_FIJOS).
Proof.
  destruct (parse_estratos_in_range s) as [Hrange Hne].
  split_and!; [done | done |].
  intros Hnone. unfold parse_estratos.
  set (keep := fun e => if validate_estrato (IsStr e) false then int_of_str e else None).
  assert (Hempty : omap keep (split "," s) = []).
  { induction Hnone as [|x l Hx _ IH]; [done |].
    cbn [omap list_omap]. unfold keep at 1. rewrite Hx. exact IH. }
  by rewrite Hempty.
Qed.

Lemma parse_estratos_range_witness :
  parse_estratos "0,8,x" = ESTRATOS_FIJOS.
Proof.
  apply (parse_estratos_range "0,8,x"). repeat constructor.
Defined.

(** X3.  Writing strata between 1 and 7 as decimal numerals separated by
    commas and parsing the result gives the same strata, in the same
    order and with their repetitions. *)
Theorem parse_estratos_join (es : list Z) :
  es <> [] ->
  Forall (fun e => 1 <= e <= 7) es ->
  parse_estratos (PyVal.join "," (pretty <$> es)) = es.
Proof.
  intros Hne Hes. unfold parse_estratos.
  rewrite split_join.
  - assert (Hkeep : omap (fun e => if validate_estrato (IsStr e) false
                                   then int_of_str e else None) (pretty <$> es) = es).
    { induction Hes as [|e es He _ IH]; [done |].
      rewrite fmap_cons. cbn [omap list_omap].
      rewrite (proj2 (estrato_numeral e He)).
      rewrite int_of_str_pretty by (pose proof int_limit_large; lia).
      destruct es; [done |]. by rewrite IH. }
    rewrite Hkeep. by destruct es.
  - by destruct es.
  - apply Forall_fmap. eapply Forall_impl; [exact Hes |].
    intros e He. apply (estrato_numeral e He).
Qed.

Lemma parse_estratos_join_witness :
  parse_estratos (PyVal.join "," (pretty <$> [3; 1; 7; 3])) = [3; 1; 7; 3].
Proof.
  apply (parse_estratos_join [3; 1; 7; 3]).
  - discriminate.
  - repeat constructor; lia.
Defined.

(** ** The explicit list of activities *)

(** X4.  An explicit list of valid activity codes, joined by commas,
    comes back from [get_activities] as it is, in order and with its
    duplicates, without a request and with the client untouched (the
    single code ["0"] apart, which asks for the discovery). *)
Theorem get_activities_explicit_join (api : service) (c : DENUEClient)
    (acts : list string) :
  acts <> [] ->
  Forall (fun x => validate_actividad x = true) acts ->
  PyVal.join "," acts <> "0" ->
  Client.get_activities api c (PyVal.join "," acts) = Returns (acts, c).
Proof.
  intros Hne Hv Hzero.
  assert (Hplain : Forall plain_digits acts).
  { eapply Forall_impl; [exact Hv | apply validate_actividad_plain]. }
  unfold Client.get_activities. rewrite (strip_joined acts Hne Hplain).
  destruct (String.eqb (PyVal.join "," acts) "0") eqn:E.
  { by apply String.eqb_eq in E. }
  rewrite split_join; [| done |].
  - f_equal. f_equal.
    clear Hne Hzero E. induction Hv as [|x l Hx _ IH]; [done |].
    apply Forall_cons in Hplain as [[Hd _] Hl].
    rewrite fmap_cons. cbn [List.filter]. rewrite (strip_digits x Hd), Hx.
    f_equal. by apply IH.
  - eapply Forall_impl; [exact Hplain |]. intros x [Hd _]. by apply digits_no_comma.
Qed.

Lemma get_activities_explicit_join_witness :
  Client.get_activities (fun _ => RequestException) (Client.init []) "11,21,11,0"
  = Returns (["11"; "21"; "11"; "0"], Client.init []).
Proof.
  apply (get_activities_explicit_join (fun _ => RequestException) (Client.init [])
           ["11"; "21"; "11"; "0"]).
  - discriminate.
  - repeat constructor.
  - discriminate.
Defined.

(** ** The rotation of the tokens *)

Section Rotation.

Lemma one_round_from (rest acc : list string) (errs : gmap string nat) :
  Pool.run {| mgr := {| queue := rest ++ acc; errors := errs |}; held := [] |}
           (one_round rest)
  = Returns (rest, {| mgr := {| queue := acc ++ rest; errors := errs |}; held := [] |}).
Proof.
  revert acc. induction rest as [|t rest IH]; intros acc.
  - by rewrite app_nil_r.
  - change (one_round (t :: rest))
      with (GetToken :: Release t true :: one_round rest).
    cbn [Pool.run Pool.do_op mgr held app TM.get_token queue errors
         mbind outcome_bind TM.release TM.put Pool.remove_first].
    rewrite ?decide_True by done. unfold TM.put. cbn [queue errors].
    rewrite <- (app_assoc rest acc [t]), (IH (acc ++ [t])).
    cbn [mbind outcome_bind]. by rewrite <- app_assoc.
Qed.

Lemma release_queue (tm tm' : TokenManager) (t : string) (ok : bool) :
  TM.release tm t ok = Returns tm' ->
  queue tm' = queue tm \/ queue tm' = queue tm ++ [t].
Proof.
  destruct ok.
  - rewrite release_success. intros [= <-]. by right.
  - pose proof (release_failure tm t) as H.
    destruct (errors tm !! t) as [n|]; [| congruence].
    destruct H as (tm2 & -> & _ & Hq). intros [= <-]. rewrite Hq.
    destruct (MAX_RETRIES_PER_TOKEN <=? S n)%nat; auto.
Qed.

(** One operation never adds a token to those in circulation. *)
Lemma do_op_circulating (p p' : pool) (o : op) (r : option string) :
  match o with GetToken => True | Release t _ => t ∈ held p end ->
  Pool.do_op p o = Returns (r, p') ->
  circulating p' ⊆+ circulating p
  /\ forall t, r = Some t -> t ∈ circulating p.
Proof.
  intros Hb. destruct o as [|t ok]; unfold Pool.do_op.
  - destruct (TM.get_token (mgr p)) as [[t tm]| |] eqn:E; [| done..].
    cbn [mbind outcome_bind]. intros [= <- <-].
    apply get_token_inv in E as [Hq _]. unfold circulating. cbn [mgr held].
    rewrite Hq. split.
    + apply Permutation_submseteq. cbn [app]. symmetry. apply Permutation_middle.
    + intros ? [= <-]. left.
  - destruct (TM.release (mgr p) t ok) as [tm| |] eqn:E; [| done..].
    cbn [mbind outcome_bind]. intros [= <- <-]. split; [| done].
    pose proof (remove_first_perm t (held p) Hb) as Hperm.
    unfold circulating. cbn [mgr held]. rewrite Hperm at 2.
    destruct (release_queue _ _ _ _ E) as [-> | ->].
    + apply submseteq_app; [done |]. by apply submseteq_cons.
    + apply Permutation_submseteq. rewrite <- app_assoc. cbn [app].
      by rewrite <- !Permutation_middle.
Qed.

Lemma run_circulating (ops : list op) (p p' : pool) (out : list string) :
  Pool.disciplined p ops ->
  Pool.run p ops = Returns (out, p') ->
  circulating p' ⊆+ circulating p
  /\ forall t, t ∈ out -> t ∈ circulating p.
Proof.
  revert p out. induction ops as [|o ops IH]; intros p out Hd.
  - intros [= <- <-]. split; [done |]. by intros t ?%elem_of_nil.
  - intros (r & p1 & out' & Hop & Hrun & ->)%run_cons.
    cbn [Pool.disciplined] in Hd. destruct Hd as [Hb Hd]. rewrite Hop in Hd.
    destruct (do_op_circulating p p1 o r Hb Hop) as [Hsub Hr].
    destruct (IH p1 out' Hd Hrun) as [Hsub' Hout].
    split; [by etrans |].
    assert (Hlater : forall t, t ∈ out' -> t ∈ circulating p).
    { intros t Ht. eapply elem_of_submseteq; [by apply Hout | done]. }
    destruct r as [t0|]; [| done].
    intros t [-> | Ht]%elem_of_cons; [by apply Hr | by apply Hlater].
Qed.

(** With distinct tokens the counts stay within the threshold, and only
    supplied tokens get a count. *)
Lemma do_op_bounded (tokens : list string) (p p' : pool) (o : op) (r : option string) :
  sound tokens p ->
  match o with GetToken => True | Release t _ => t ∈ held p end ->
  Pool.do_op p o = Returns (r, p') ->
  forall t, (TM.failures (mgr p') t <= TM.failures (mgr p) t
             \/ (t ∈ tokens /\ TM.failures (mgr p') t <= MAX_RETRIES_PER_TOKEN))%nat.
Proof.
  intros [_ Hin] Hb Hop t. destruct o as [|t' ok]; unfold Pool.do_op in Hop.
  - destruct (TM.get_token (mgr p)) as [[t0 tm]| |] eqn:E; [| done..].
    cbn [mbind outcome_bind] in Hop. injection Hop as _ <-.
    apply get_token_inv in E as [_ He]. left. unfold TM.failures. simpl. by rewrite He.
  - destruct (TM.release (mgr p) t' ok) as [tm| |] eqn:E; [| done..].
    cbn [mbind outcome_bind] in Hop. injection Hop as _ <-. cbn [mgr].
    destruct ok.
    + rewrite release_success in E. injection E as <-. by left.
    + pose proof (release_failure (mgr p) t') as H.
      destruct (Hin t') as (Ht' & [n Hn] & Hlt).
      { unfold circulating. rewrite elem_of_app. by right. }
      rewrite Hn in H. destruct H as (tm2 & E2 & He & _).
      rewrite E2 in E. injection E as <-.
      rewrite (failures_insert tm2 t' t (S n) _ He).
      destruct (decide (t' = t)) as [<- | Hne]; [| by left].
      right. split; [done |]. unfold TM.failures in Hlt. rewrite Hn in Hlt.
      simpl in Hlt. lia.
Qed.

End Rotation.

(** X5.  When every call succeeds the tokens rotate: one round of
    get-and-release over the queue hands the tokens out in the order of
    the queue and leaves the manager, queue and counts, as it was. *)
Theorem tokens_rotate (tm : TokenManager) :
  Pool.run {| mgr := tm; held := [] |} (one_round (queue tm))
  = Returns (queue tm, {| mgr := tm; held := [] |}).
Proof.
  destruct tm as [q errs]. cbn [queue].
  pose proof (one_round_from q [] errs) as H.
  by rewrite app_nil_r, app_nil_l in H.
Qed.

(** X6.  Whatever the list of credentials, duplicates included, a run of
    operations that releases only borrowed tokens never has more copies of
    a token in circulation (in the queue or borrowed) than were supplied,
    and hands out supplied tokens only. *)
Theorem tokens_conserved (tokens : list string) (ops : list op)
    (p : pool) (out : list string) :
  Pool.disciplined (Pool.start tokens) ops ->
  Pool.run (Pool.start tokens) ops = Returns (out, p) ->
  queue (mgr p) ++ held p ⊆+ tokens
  /\ (length (held p) <= length tokens)%nat
  /\ forall t, t ∈ out -> t ∈ tokens.
Proof.
  intros Hd Hrun.
  destruct (run_circulating ops _ _ _ Hd Hrun) as [Hsub Hout].
  unfold circulating in *. cbn [Pool.start mgr held TM.init queue] in *.
  rewrite app_nil_r in *. split_and!; [done | | done].
  apply submseteq_length in Hsub. rewrite length_app in Hsub. lia.
Qed.

Lemma tokens_conserved_witness :
  queue (TM.put "a" {| queue := []; errors := <["a" := 1%nat]> (errors (TM.init ["a"; "a"])) |})
    ++ ["a"] ⊆+ ["a"; "a"]
  /\ (length ["a"] <= length ["a"; "a"])%nat
  /\ forall t, t ∈ ["a"; "a"] -> t ∈ ["a"; "a"].
Proof.
  apply (tokens_conserved ["a"; "a"] [GetToken; GetToken; Release "a" false]
           {| mgr := TM.put "a" {| queue := [];
                                   errors := <["a" := 1%nat]> (errors (TM.init ["a"; "a"])) |};
              held := ["a"] |}).
  - vm_compute. repeat split; repeat constructor.
  - vm_compute. reflexivity.
Defined.

(** X7.  With distinct credentials and releases of borrowed tokens only,
    no failure count ever exceeds the threshold 3, and a string that is
    not a supplied credential never gets a count. *)
Theorem failures_bounded (tokens : list string) (ops : list op)
    (p : pool) (out : list string) :
  NoDup tokens ->
  Pool.disciplined (Pool.start tokens) ops ->
  Pool.run (Pool.start tokens) ops = Returns (out, p) ->
  forall t, (TM.failures (mgr p) t <= MAX_RETRIES_PER_TOKEN)%nat
            /\ (t ∉ tokens -> TM.failures (mgr p) t = 0%nat).
Proof.
  intros Hnd Hd Hrun t.
  assert (Hgen : forall ops p0 out0 p1,
             sound tokens p0 -> Pool.disciplined p0 ops ->
             Pool.run p0 ops = Returns (out0, p1) ->
             (TM.failures (mgr p1) t <= TM.failures (mgr p0) t
              \/ (t ∈ tokens /\ TM.failures (mgr p1) t <= MAX_RETRIES_PER_TOKEN))%nat).
  { clear ops p out Hd Hrun. induction ops as [|o ops IH]; intros p0 out0 p1 Hs Hd.
    - intros [= _ <-]. by left.
    - intros (r & q & out' & Hop & Hrun & _)%run_cons.
      cbn [Pool.disciplined] in Hd. destruct Hd as [Hb Hd]. rewrite Hop in Hd.
      assert (Hsq : sound tokens q).
      { destruct (run_sound tokens [o] p0 q (match r with Some t0 => [t0] | None => [] end) Hs)
          as [Hsq _]; [| | done].
        - cbn [Pool.disciplined]. rewrite Hop. done.
        - cbn [Pool.run]. rewrite Hop. cbn [mbind outcome_bind]. by destruct r. }
      destruct (IH q out' p1 Hsq Hd Hrun) as [Hle | Hin]; [| by right].
      destruct (do_op_bounded tokens p0 q o r Hs Hb Hop t) as [Hle' | [Hin Hle']].
      + left. lia.
      + right. split; [done | lia]. }
  destruct (Hgen ops _ _ _ (start_sound tokens Hnd) Hd Hrun) as [Hle | [Hin Hle]].
  - cbn [Pool.start mgr] in Hle. rewrite init_failures in Hle.
    split; [unfold MAX_RETRIES_PER_TOKEN; lia | intros _; lia].
  - split; [done | by intros Hnot].
Qed.

Lemma failures_bounded_witness :
  (TM.failures {| queue := ["b"];
                  errors := <["a" := 3%nat]> (errors (TM.init ["a"; "b"])) |} "a"
   <= MAX_RETRIES_PER_TOKEN)%nat
  /\ ("a" ∉ ["a"; "b"] ->
      TM.failures {| queue := ["b"];
                     errors := <["a" := 3%nat]> (errors (TM.init ["a"; "b"])) |} "a"
      = 0%nat).
Proof.
  refine (failures_bounded ["a"; "b"]
            [GetToken; Release "a" false; GetToken; Release "b" true;
             GetToken; Release "a" false; GetToken; GetToken;
             Release "a" false; Release "b" true]
            {| mgr := {| queue := ["b"];
                         errors := <["a" := 3%nat]> (errors (TM.init ["a"; "b"])) |};
               held := [] |}
            ["a"; "b"; "a"; "b"; "a"] _ _ _ "a").
  - apply NoDup_cons. split; [by intros ?%list_elem_of_singleton |].
    apply NoDup_singleton.
  - vm_compute. repeat split; repeat constructor.
  - vm_compute. reflexivity.
Defined.

(** ** What [fetch] and [quantify] do on failure *)

Section FetchOutcomes.

Variable api : service.

Lemma fetch_valid_outcome (c : DENUEClient) (actividad area : string)
    (estrato : Z) (allow_zero_estrato : bool) :
  tracked (token_mgr c) ->
  Client.valid_request actividad area estrato allow_zero_estrato = true ->
  match queue (token_mgr c) with
  | [] => Client.fetch api c actividad area estrato allow_zero_estrato = Blocks
  | t :: q =>
      exists data tm',
        Client.fetch api c actividad area estrato allow_zero_estrato
        = Returns (data,
                   {| token_mgr := tm';
                      requested := requested c
                                   ++ [Client.url_of actividad area estrato t] |})
        /\ (brings_records (api (Client.url_of actividad area estrato t)) = false ->
            data = [])
  end.
Proof.
  intros Htr Hv. unfold Client.fetch, Client.fetch_request. rewrite Hv. cbn [negb].
  destruct (queue (token_mgr c)) as [|t q] eqn:Eq.
  - by rewrite (proj1 (get_token_blocks _) Eq).
  - rewrite (get_token_returns _ t q Eq). cbn [mbind outcome_bind].
    set (url := Client.url_of actividad area estrato t).
    destruct (fetch_response_release api
                {| token_mgr := {| queue := q; errors := errors (token_mgr c) |};
                   requested := requested c ++ [url] |} t url)
      as (data & tm' & Hresp & _ & Hdata).
    { cbn [token_mgr errors]. apply Htr. rewrite Eq. left. }
    exists data, tm'. split; [exact Hresp |].
    intros Hb. destruct (api url) as [[[]|]| |]; done.
Qed.

End FetchOutcomes.

(** X8.  On a client whose queued tokens have failure counts, [fetch]
    never raises: it blocks exactly when the parameters are valid and the
    queue is empty, and otherwise it returns and the queued tokens of the
    resulting client have failure counts again. *)
Theorem fetch_blocks_or_returns (api : service) (c : DENUEClient)
    (actividad area : string) (estrato : Z) (allow_zero_estrato : bool) :
  tracked (token_mgr c) ->
  (Client.fetch api c actividad area estrato allow_zero_estrato = Blocks
   <-> Client.valid_request actividad area estrato allow_zero_estrato = true
       /\ queue (token_mgr c) = [])
  /\ (forall e, Client.fetch api c actividad area estrato allow_zero_estrato
                <> Raises e)
  /\ (Client.fetch api c actividad area estrato allow_zero_estrato <> Blocks ->
      exists data c',
        Client.fetch api c actividad area estrato allow_zero_estrato
        = Returns (data, c')
        /\ tracked (token_mgr c')).
Proof.
  intros Htr.
  destruct (Client.valid_request actividad area estrato allow_zero_estrato) eqn:Hv.
  - pose proof (fetch_valid_outcome api c _ _ _ _ Htr Hv) as H.
    destruct (queue (token_mgr c)) as [|t q] eqn:Eq.
    + rewrite H. split_and!; [done | done | done].
    + destruct H as (data & tm' & Hf & _).
      pose proof (fetch_tracked api c _ _ _ _ _ _ Htr Hf) as Htr'.
      rewrite Hf. split_and!.
      * split; [done | by intros [_ ?]].
      * done.
      * intros _. by eexists _, _.
  - assert (Hf : Client.fetch api c actividad area estrato allow_zero_estrato
                 = Returns ([], c)).
    { unfold Client.fetch. by rewrite Hv. }
    rewrite Hf. split_and!.
    + split; [done | by intros [? _]].
    + done.
    + intros _. by exists [], c.
Qed.

Lemma fetch_blocks_or_returns_witness :
  Client.fetch (fun _ => HTTPError 401) (Client.init []) "11" "01001" 1 false = Blocks
  <-> Client.valid_request "11" "01001" 1 false = true
      /\ queue (token_mgr (Client.init [])) = [].
Proof.
  apply (fetch_blocks_or_returns (fun _ => HTTPError 401) (Client.init [])
           "11" "01001" 1 false).
  apply init_tracked.
Defined.

(** X9.  A task that fails counts as zero: [quantify] returns 0 with the
    client untouched when the parameters are refused, and returns 0 after
    its one request when the response is an HTTP error, another exception
    or a body that is not a JSON list. *)
Theorem quantify_zero_on_failure (api : service) (c : DENUEClient)
    (actividad area : string) (estrato : Z) :
  tracked (token_mgr c) ->
  (Client.valid_request actividad area estrato false = false ->
   Client.quantify api c actividad area estrato = Returns (0, c))
  /\ (forall t q,
        Client.valid_request actividad area estrato false = true ->
        queue (token_mgr c) = t :: q ->
        brings_records (api (Client.url_of actividad area estrato t)) = false ->
        exists tm',
          Client.quantify api c actividad area estrato
          = Returns (0, {| token_mgr := tm';
                           requested := requested c
                                        ++ [Client.url_of actividad area estrato t] |})).
Proof.
  intros Htr. split.
  - intros Hv. unfold Client.quantify, Client.fetch. by rewrite Hv.
  - intros t q Hv Hq Hb.
    pose proof (fetch_valid_outcome api c _ _ _ _ Htr Hv) as H. rewrite Hq in H.
    destruct H as (data & tm' & Hf & Hdata). rewrite (Hdata Hb) in Hf.
    exists tm'. unfold Client.quantify. by rewrite Hf.
Qed.

Lemma quantify_zero_on_failure_witness :
  exists tm',
    Client.quantify (fun _ => HTTPError 503) (Client.init ["t1"]) "11" "01001" 1
    = Returns (0, {| token_mgr := tm';
                     requested := [] ++ [Client.url_of "11" "01001" 1 "t1"] |}).
Proof.
  apply (proj2 (quantify_zero_on_failure (fun _ => HTTPError 503) (Client.init ["t1"])
                  "11" "01001" 1 (init_tracked ["t1"])) "t1" []);
    reflexivity.
Defined.

(** ** The sum of [quantify] *)

Section SumFacts.

Lemma sum_of_fields_perm (d1 d2 : list value) :
  d1 ≡ₚ d2 -> Contract.sum_of_fields d1 = Contract.sum_of_fields d2.
Proof.
  induction 1 as [|x l1 l2 _ IH|x y l|l1 l2 l3 _ IH1 _ IH2].
  - done.
  - by rewrite !sum_of_fields_cons, IH.
  - rewrite !sum_of_fields_cons. lia.
  - by rewrite IH1.
Qed.

End SumFacts.

(** X10.  The total that [quantify] computes does not depend on the order
    of the records, and the total of two lists of records put together is
    the sum of their totals. *)
Theorem quantify_total_order (d1 d2 : list value) :
  (d1 ≡ₚ d2 -> Client.quantify_total d1 = Client.quantify_total d2)
  /\ exists a b,
       Client.quantify_total d1 = Returns a
       /\ Client.quantify_total d2 = Returns b
       /\ Client.quantify_total (d1 ++ d2) = Returns (a + b).
Proof.
  split.
  - intros H. by rewrite !quantify_total_sum, (sum_of_fields_perm d1 d2 H).
  - exists (Contract.sum_of_fields d1), (Contract.sum_of_fields d2).
    by rewrite !quantify_total_sum, sum_of_fields_app.
Qed.

Lemma quantify_total_order_witness :
  Client.quantify_total [VList [VStr "A"; VInt 1; VInt 15]; VDict [("total", VStr "4")]]
  = Client.quantify_total [VDict [("total", VStr "4")]; VList [VStr "A"; VInt 1; VInt 15]].
Proof.
  apply (proj1 (quantify_total_order _ _)). apply Permutation_swap.
Defined.

Section Numerals.

Lemma pretty_nonempty (z : Z) : is_empty (pretty z) = false.
Proof.
  destruct z as [|p|p]; [done | | done].
  destruct (read_digits_pretty_go (N.pos p) ltac:(lia) "")
    as [(c & rest & Hstr & _) _].
  change (pretty (Z.pos p)) with (pretty_N_go (N.pos p) ""). by rewrite Hstr.
Qed.

(** What a numeral adds to the total, in a dictionary and in a list. *)
Lemma contribution_numeral (z : Z) (a b : value) :
  Contract.contribution (VDict [("Total", VStr (pretty z))])
  = default 0 (int_of_str (pretty z))
  /\ Contract.contribution (VList [a; b; VStr (pretty z)])
     = default 0 (int_of_str (pretty z)).
Proof.
  unfold Contract.contribution, Contract.total_field, PyVal.dict_lookup.
  cbn [List.find fst snd String.eqb Ascii.eqb Bool.eqb fmap option_fmap option_map
       lookup list_lookup PyVal.truthy].
  rewrite pretty_nonempty. cbn [negb mbind option_bind]. unfold Contract.coerced.
  cbn [PyVal.int]. by destruct (int_of_str (pretty z)).
Qed.

End Numerals.

(** X11.  Totals are counted the same whether the API writes them as JSON
    integers or as decimal strings, in a dictionary under [Total] or at
    position 2 of a list: the total of such records is the sum of the
    integers, for strings as long as the integers have at most 4300
    digits.  Strings of more digits are what [int] refuses: such records
    are skipped. *)
Theorem quantify_total_numerals (zs : list Z) (a b : value) :
  (Forall (fun z => Z.abs z < 10 ^ 4300) zs ->
   Client.quantify_total ((fun z : Z => VDict [("Total", VStr (pretty z))]) <$> zs)
   = Returns (foldr Z.add 0 zs)
   /\ Client.quantify_total ((fun z : Z => VList [a; b; VStr (pretty z)]) <$> zs)
      = Returns (foldr Z.add 0 zs))
  /\ Client.quantify_total ((fun z : Z => VDict [("Total", VInt z)]) <$> zs)
     = Returns (foldr Z.add 0 zs)
  /\ Client.quantify_total ((fun z : Z => VList [a; b; VInt z]) <$> zs)
     = Returns (foldr Z.add 0 zs)
  /\ (Forall (fun z => 10 ^ 4300 <= Z.abs z) zs ->
      Client.quantify_total ((fun z : Z => VDict [("Total", VStr (pretty z))]) <$> zs)
      = Returns 0
      /\ Client.quantify_total ((fun z : Z => VList [a; b; VStr (pretty z)]) <$> zs)
         = Returns 0).
Proof.
  rewrite !quantify_total_sum. split_and!.
  - intros Hshort. split; f_equal;
      (induction Hshort as [|z zs Hz _ IH]; [done |]);
      rewrite fmap_cons, sum_of_fields_cons, IH; cbn [foldr]; f_equal;
      [rewrite (proj1 (contribution_numeral z a b))
      | rewrite (proj2 (contribution_numeral z a b))];
      by rewrite (int_of_str_pretty z Hz).
  - f_equal. induction zs as [|z zs IH]; [done |].
    rewrite fmap_cons, sum_of_fields_cons, IH. cbn [foldr]. f_equal.
    by destruct z.
  - f_equal. induction zs as [|z zs IH]; [done |].
    by rewrite fmap_cons, sum_of_fields_cons, IH.
  - intros Hlong. split; f_equal;
      (induction Hlong as [|z zs Hz _ IH]; [done |]);
      rewrite fmap_cons, sum_of_fields_cons, IH;
      [rewrite (proj1 (contribution_numeral z a b))
      | rewrite (proj2 (contribution_numeral z a b))];
      by rewrite (int_of_str_long z Hz).
Qed.

Lemma quantify_total_numerals_witness :
  Client.quantify_total
    ((fun z : Z => VDict [("Total", VStr (pretty z))]) <$> [15; -4; 0; 27])
  = Returns 38
  /\ Client.quantify_total
       ((fun z : Z => VList [VNone; VNone; VStr (pretty z)]) <$> [15; -4; 0; 27])
     = Returns 38.
Proof.
  apply (proj1 (quantify_total_numerals [15; -4; 0; 27] VNone VNone)).
  repeat constructor.
Defined.

(** ** [extract_id] *)

Section ExtractId.

Lemma first_present_none (d : list (string * value)) (keys : list string) :
  Client.first_present d keys = None
  <-> Forall (fun k => PyVal.dict_lookup d k = None) keys.
Proof.
  induction keys as [|k keys IH]; cbn [Client.first_present].
  - split; [constructor | done].
  - destruct (PyVal.dict_lookup d k) eqn:E.
    + split; [done |]. intros [H _]%Forall_cons. congruence.
    + rewrite IH. split; [by constructor |]. by intros [_ ?]%Forall_cons.
Qed.

Lemma first_present_first (d : list (string * value)) (before after : list string)
    (k : string) (v : value) :
  Forall (fun k' => PyVal.dict_lookup d k' = None) before ->
  PyVal.dict_lookup d k = Some v ->
  Client.first_present d (before ++ k :: after) = Some v.
Proof.
  intros Hb Hk. induction Hb as [|k' before Hk' _ IH]; cbn [app Client.first_present].
  - by rewrite Hk.
  - by rewrite Hk'.
Qed.

End ExtractId.

(** X12.  [extract_id] has no identifier exactly for the empty list, for
    a dictionary with none of the seven identifier keys, and for a value
    that is neither list nor dictionary; in a dictionary the first key
    present, in the order of the aliases, gives the identifier, whatever
    the keys after it hold. *)
Theorem extract_id_keys (record : value) :
  (Client.extract_id record = None
   <-> match record with
       | VList l => l = []
       | VDict d => Forall (fun k => PyVal.dict_lookup d k = None) Client.ID_KEYS
       | _ => True
       end)
  /\ (forall d before k after v,
        record = VDict d ->
        Client.ID_KEYS = before ++ k :: after ->
        Forall (fun k' => PyVal.dict_lookup d k' = None) before ->
        PyVal.dict_lookup d k = Some v ->
        Client.extract_id record = Some (PyVal.str v)).
Proof.
  split.
  - destruct record as [| | | | |l|d]; cbn [Client.extract_id]; try done.
    + destruct l; split; done.
    + rewrite <- first_present_none.
      destruct (Client.first_present d Client.ID_KEYS); split; done.
  - intros d before k after v -> Hkeys Hb Hk. cbn [Client.extract_id].
    by rewrite Hkeys, (first_present_first d before after k v Hb Hk).
Qed.

Lemma extract_id_keys_witness :
  Client.extract_id (VDict [("id", VInt 7); ("IdActividad", VStr "23")])
  = Some (PyVal.str (VStr "23")).
Proof.
  apply (proj2 (extract_id_keys (VDict [("id", VInt 7); ("IdActividad", VStr "23")]))
           [("id", VInt 7); ("IdActividad", VStr "23")]
           ["AE"] "IdActividad"
           ["idActividad"; "IDE_ACTIVIDAD_ECONOMICA"; "actividad"; "Id"; "id"]).
  - reflexivity.
  - reflexivity.
  - repeat constructor.
  - reflexivity.
Defined.

(** ** The discovery and the entry point *)

Section MainPaths.

Lemma elem_of_tasks_of (t : task) (ramos : list string) (estratos : list Z)
    (areas : list string) :
  t ∈ Executor.tasks_of ramos estratos areas
  <-> ramo t ∈ ramos /\ area t ∈ areas /\ estrato t ∈ estratos.
Proof.
  unfold Executor.tasks_of.
  rewrite list_elem_of_In, in_flat_map. setoid_rewrite in_flat_map.
  setoid_rewrite in_map_iff. setoid_rewrite <- list_elem_of_In. split.
  - intros (r & Hr & a & Ha & e & <- & He). done.
  - intros (Hr & Ha & He). exists (ramo t). split; [done |].
    exists (area t). split; [done |]. exists (estrato t). split; [| done].
    by destruct t.
Qed.

Lemma estrato_in_range_valid (e : Z) :
  1 <= e <= 7 -> validate_estrato (IsInt e) false = true.
Proof.
  intros [H1 H2]. unfold validate_estrato. cbn [to_int andb].
  by rewrite (proj2 (Z.leb_le 1 e) H1), (proj2 (Z.leb_le e 7) H2).
Qed.

End MainPaths.

(** X13.  When the discovery of the activities fails, the script exits
    with status 1: with a credential, the argument ["0"] for the
    activities, and a response to the discovery request that is an HTTP
    error, another exception or not a JSON list. *)
Theorem main_discovery_failure (api : service) (fs : files) (a : args)
    (t : string) (rest : list string) :
  nonblank (split "," (arg_tokens a)) = t :: rest ->
  strip (arg_ramos a) = "0" ->
  brings_records (api (Client.url_of "0" "0" 0 t)) = false ->
  main api fs a = Returns (Exit 1).
Proof.
  intros Htok Hr Hb. unfold main. rewrite Htok.
  unfold Client.get_activities. rewrite Hr. cbn [String.eqb Ascii.eqb Bool.eqb].
  pose proof (fetch_valid_outcome api (Client.init (t :: rest)) "0" "0" 0 true
                (init_tracked (t :: rest)) eq_refl) as H.
  cbn [Client.init token_mgr TM.init queue] in H.
  destruct H as (data & tm' & Hf & Hdata). rewrite (Hdata Hb) in Hf.
  cbn [Client.init TM.init]. rewrite Hf. reflexivity.
Qed.

Lemma main_discovery_failure_witness :
  main (fun _ => HTTPError 500) (fun _ => None)
       {| arg_ramos := " 0 "; arg_area := "municipios.txt";
          arg_estratos := default_estratos; arg_tokens := "t1, t2";
          arg_workers := 50; arg_output := "out.csv" |}
  = Returns (Exit 1).
Proof.
  apply (main_discovery_failure (fun _ => HTTPError 500) (fun _ => None) _ "t1" ["t2"]);
    reflexivity.
Defined.

(** X14.  With an explicit list of activities, when the script gets as
    far as [generate_csv] it has sent no request, it has at least one
    activity, one stratum and one area, and every task that
    [generate_csv] will submit passes the validation at the head of
    [fetch]. *)
Theorem main_tasks_valid (api : service) (fs : files) (a : args)
    (c : DENUEClient) (actividades : list string) (estratos : list Z)
    (areas : list string) (output : string) (workers : Z) :
  strip (arg_ramos a) <> "0" ->
  main api fs a = Returns (GenerateCsv c actividades estratos areas output workers) ->
  c = Client.init (nonblank (split "," (arg_tokens a)))
  /\ Executor.tasks_of actividades estratos areas <> []
  /\ Forall (fun t => Executor.valid_task t = true)
            (Executor.tasks_of actividades estratos areas).
Proof.
  intros Hr. unfold main, Client.get_activities.
  destruct (String.eqb (strip (arg_ramos a)) "0") eqn:E.
  { by apply String.eqb_eq in E. }
  cbn [mbind outcome_bind].
  set (acts := List.filter validate_actividad (strip <$> split "," (strip (arg_ramos a)))).
  assert (Hacts : Forall (fun x => validate_actividad x = true) acts).
  { apply Forall_forall. intros x Hx. unfold acts in Hx.
    by apply list_elem_of_In, filter_In in Hx as [_ ?]. }
  destruct acts as [|act acts]; [done |].
  set (raw := if endswith ".txt" (lower (arg_area a))
              then match fs (arg_area a) with
                   | Some lines => Returns (nonblank lines)
                   | None => Raises OSError
                   end
              else Returns (nonblank (split "," (arg_area a)))).
  destruct raw as [raw_areas| |]; [| done..]. cbn [mbind outcome_bind].
  pose proof (pad_areas_area_codes raw_areas) as Hareas.
  destruct (pad_areas raw_areas) as [|ar ars] eqn:Epad; [done |].
  intros [= <- <- <- <- _ _].
  destruct (parse_estratos_in_range (arg_estratos a)) as [Hes Hne].
  split_and!; [done | |].
  - destruct (parse_estratos (arg_estratos a)) as [|e es]; [done |]. discriminate.
  - apply Forall_forall. intros t (Ht1 & Ht2 & Ht3)%elem_of_tasks_of.
    unfold Executor.valid_task, Client.valid_request.
    rewrite (proj1 (Forall_forall _ _) Hacts _ Ht1).
    rewrite (area_code_valid _ (proj1 (Forall_forall _ _) Hareas _ Ht2)).
    rewrite (estrato_in_range_valid _ (proj1 (Forall_forall _ _) Hes _ Ht3)).
    done.
Qed.

Lemma main_tasks_valid_witness :
  Client.init ["t1"] = Client.init (nonblank (split "," "t1,"))
  /\ Executor.tasks_of ["11"; "21"] [1; 2] ["01001"; "00009"] <> []
  /\ Forall (fun t => Executor.valid_task t = true)
            (Executor.tasks_of ["11"; "21"] [1; 2] ["01001"; "00009"]).
Proof.
  apply (main_tasks_valid (fun _ => RequestException) (fun _ => None)
           {| arg_ramos := "11, 7,21"; arg_area := "01001,9,x"; arg_estratos := "1,2,9";
              arg_tokens := "t1,"; arg_workers := 4; arg_output := "out.csv" |}
           (Client.init ["t1"]) ["11"; "21"] [1; 2] ["01001"; "00009"] "out.csv" 4).
  - discriminate.
  - reflexivity.
Defined.

(** ** Requests under way and requests sent *)

Section ExecutorResources.

Variable api : service.
Variable max_workers : Z.

Lemma in_flight_app (c : DENUEClient) (ps : list Executor.future)
    (rs1 rs2 : list (Executor.future * Executor.phase))
    (fs : list (Executor.future * Z)) (w : list row) :
  in_flight {| Executor.client := c; Executor.pending := ps;
               Executor.running := rs1 ++ rs2; Executor.finished := fs;
               Executor.csv := w |}
  = in_flight {| Executor.client := c; Executor.pending := ps;
                 Executor.running := rs1; Executor.finished := fs;
                 Executor.csv := w |}
    ++ in_flight {| Executor.client := c; Executor.pending := ps;
                    Executor.running := rs2; Executor.finished := fs;
                    Executor.csv := w |}.
Proof. unfold in_flight. cbn [Executor.running]. apply omap_app. Qed.

(** A step never adds a token to those in the queue or with a worker. *)
Lemma step_tokens (s s' : Executor.state) :
  Executor.step api max_workers s s' ->
  queue (token_mgr (Executor.client s')) ++ in_flight s'
    ⊆+ queue (token_mgr (Executor.client s)) ++ in_flight s.
Proof.
  destruct 1; unfold in_flight; state_fields;
    rewrite ?omap_app; cbn [omap list_omap snd]; rewrite ?omap_app, ?app_nil_r.
  - done.
  - done.
  - match goal with H : Client.fetch_request _ _ _ _ = _ |- _ =>
      apply fetch_request_inv in H as (Hq & _) end.
    rewrite Hq. apply Permutation_submseteq. solve_Permutation.
  - match goal with H : Client.fetch_response _ _ _ _ = _ |- _ =>
      apply fetch_response_inv in H as (ok & tm' & Hrel & -> & _) end.
    unfold Client.with_token_mgr. cbn [token_mgr].
    destruct (release_queue _ _ _ _ Hrel) as [-> | ->].
    + apply submseteq_app; [done |]. apply submseteq_app; [done |].
      by apply submseteq_cons.
    + apply Permutation_submseteq. solve_Permutation.
  - done.
Qed.

Lemma steps_tokens (s s' : Executor.state) :
  Executor.steps api max_workers s s' ->
  queue (token_mgr (Executor.client s')) ++ in_flight s'
    ⊆+ queue (token_mgr (Executor.client s)) ++ in_flight s.
Proof.
  induction 1 as [|s1 s2 s3 H12 _ IH]; [done |].
  etrans; [exact IH | by apply step_tokens].
Qed.

Lemma step_workers (s s' : Executor.state) :
  Executor.step api max_workers s s' ->
  Z.of_nat (length (Executor.running s)) <= Z.max 0 max_workers ->
  Z.of_nat (length (Executor.running s')) <= Z.max 0 max_workers.
Proof.
  destruct 1; state_fields; rewrite ?length_app; cbn [length]; lia.
Qed.

Lemma steps_workers (s s' : Executor.state) :
  Executor.steps api max_workers s s' ->
  Z.of_nat (length (Executor.running s)) <= Z.max 0 max_workers ->
  Z.of_nat (length (Executor.running s')) <= Z.max 0 max_workers.
Proof. induction 1; eauto using step_workers. Qed.

Lemma in_flight_length (s : Executor.state) :
  (length (in_flight s) <= length (Executor.running s))%nat.
Proof.
  unfold in_flight. induction (Executor.running s) as [|fp l IH]; [done |].
  cbn [omap list_omap]. destruct fp.2; cbn [length]; lia.
Qed.

(** The number of requests sent and of requests still to send is
    constant. *)
Lemma step_requests (s s' : Executor.state) :
  Executor.step api max_workers s s' ->
  (length (requested (Executor.client s')) + to_request s'
   = length (requested (Executor.client s)) + to_request s)%nat.
Proof.
  destruct 1; unfold to_request; state_fields;
    rewrite ?List.filter_app, ?length_app; cbn [List.filter fst snd length];
    unfold Executor.future in *.
  - destruct (Executor.valid_task f.2); cbn [length]; lia.
  - match goal with H : Executor.valid_task _ = false |- _ => rewrite H end. lia.
  - match goal with H : Executor.valid_task _ = true |- _ => rewrite H end.
    match goal with H : Client.fetch_request _ _ _ _ = _ |- _ =>
      apply fetch_request_inv in H as (_ & _ & _ & Hlog) end.
    rewrite Hlog, length_app. cbn [length]. lia.
  - match goal with H : Client.fetch_response _ _ _ _ = _ |- _ =>
      apply fetch_response_inv in H as (ok & tm' & _ & -> & _) end.
    unfold Client.with_token_mgr. cbn [requested]. lia.
  - lia.
Qed.

Lemma steps_requests (s s' : Executor.state) :
  Executor.steps api max_workers s s' ->
  (length (requested (Executor.client s')) + to_request s'
   = length (requested (Executor.client s)) + to_request s)%nat.
Proof.
  induction 1 as [|s1 s2 s3 H12 _ IH]; [done |].
  rewrite IH. by apply step_requests.
Qed.

Lemma filter_futures (l : list Executor.future) :
  length (List.filter (fun f => Executor.valid_task f.2) l)
  = length (List.filter Executor.valid_task (snd <$> l)).
Proof.
  induction l as [|f l IH]; [done |].
  rewrite fmap_cons. cbn [List.filter].
  destruct (Executor.valid_task f.2); cbn [length]; by rewrite IH.
Qed.

End ExecutorResources.

(** X15.  While [generate_csv] runs, the requests under way are never
    more than the credentials that were in the queue at the start, and
    the calls in progress never more than the workers of the pool, in
    every state of every run. *)
Theorem requests_bounded_by_tokens (api : service) (c : DENUEClient)
    (ramos : list string) (estratos : list Z) (areas : list string)
    (max_workers : Z) (s0 s : Executor.state) :
  Executor.generate_csv c ramos estratos areas max_workers = Returns s0 ->
  Executor.steps api max_workers s0 s ->
  (length (in_flight s) <= length (queue (token_mgr c)))%nat
  /\ (length (in_flight s) <= length (Executor.running s))%nat
  /\ Z.of_nat (length (Executor.running s)) <= max_workers.
Proof.
  unfold Executor.generate_csv. destruct (max_workers <=? 0) eqn:E; [done |].
  apply Z.leb_gt in E. intros [= <-] Hsteps.
  split_and!.
  - pose proof (steps_tokens api max_workers _ _ Hsteps) as Hsub.
    apply submseteq_length in Hsub. unfold in_flight in Hsub at 2.
    cbn [Executor.client Executor.running omap list_omap] in Hsub.
    rewrite !length_app in Hsub. cbn [length] in Hsub. lia.
  - apply in_flight_length.
  - pose proof (steps_workers api max_workers _ _ Hsteps) as H.
    cbn [Executor.running length] in H. lia.
Qed.

Lemma requests_bounded_by_tokens_witness :
  exists s,
    Executor.schedule (fun _ => HTTPError 500) 50
      {| Executor.client := Client.init ["t1"; "t2"];
         Executor.pending := Executor.submit_all
                               (Executor.tasks_of ["11"] [1; 2; 3] ["01001"]);
         Executor.running := []; Executor.finished := []; Executor.csv := [] |}
      [Executor.Start; Executor.Start; Executor.Start;
       Executor.Work 0; Executor.Work 2]
    = Some s
    /\ (length (in_flight s) <= length (queue (token_mgr (Client.init ["t1"; "t2"]))))%nat
    /\ (length (in_flight s) <= length (Executor.running s))%nat
    /\ Z.of_nat (length (Executor.running s)) <= 50.
Proof.
  eexists. split; [vm_compute; reflexivity |].
  apply (requests_bounded_by_tokens (fun _ => HTTPError 500) (Client.init ["t1"; "t2"])
           ["11"] [1; 2; 3] ["01001"] 50
           {| Executor.client := Client.init ["t1"; "t2"];
              Executor.pending := Executor.submit_all
                                    (Executor.tasks_of ["11"] [1; 2; 3] ["01001"]);
              Executor.running := []; Executor.finished := []; Executor.csv := [] |}).
  - reflexivity.
  - apply (schedule_sound (fun _ => HTTPError 500) 50
             [Executor.Start; Executor.Start; Executor.Start;
              Executor.Work 0; Executor.Work 2]).
    vm_compute. reflexivity.
Defined.

(** X16.  [generate_csv] sends one request for each task that passes the
    validation and none for the others: in every state of a run the
    requests sent since the start are at most the valid tasks, and when
    the run is completed they are exactly as many. *)
Theorem one_request_per_valid_task (api : service) (c : DENUEClient)
    (ramos : list string) (estratos : list Z) (areas : list string)
    (max_workers : Z) (s0 s : Executor.state) :
  Executor.generate_csv c ramos estratos areas max_workers = Returns s0 ->
  Executor.steps api max_workers s0 s ->
  (length (requested (Executor.client s))
   <= length (requested c)
      + length (List.filter Executor.valid_task
                  (Executor.tasks_of ramos estratos areas)))%nat
  /\ (Executor.completed s ->
      length (requested (Executor.client s))
      = (length (requested c)
         + length (List.filter Executor.valid_task
                     (Executor.tasks_of ramos estratos areas)))%nat).
Proof.
  unfold Executor.generate_csv. destruct (max_workers <=? 0); [done |].
  intros [= <-] Hsteps.
  pose proof (steps_requests api max_workers _ _ Hsteps) as H.
  unfold to_request in H at 2.
  cbn [Executor.client Executor.pending Executor.running List.filter length] in H.
  rewrite filter_futures, submit_all_tasks, Nat.add_0_r in H.
  split; [lia |].
  intros (Hp & Hr & _). unfold to_request in H. rewrite Hp, Hr in H.
  cbn [List.filter length] in H. lia.
Qed.

Lemma one_request_per_valid_task_witness :
  exists s,
    Executor.schedule (fun _ => HTTPError 500) 2
      {| Executor.client := Client.init ["t1"];
         Executor.pending := Executor.submit_all
                               (Executor.tasks_of ["11"; "-7"] [1; 2] ["01001"]);
         Executor.running := []; Executor.finished := []; Executor.csv := [] |}
      [Executor.Start; Executor.Start; Executor.Work 0; Executor.Work 0;
       Executor.Work 0; Executor.Work 0; Executor.Start; Executor.Start;
       Executor.Work 1; Executor.Work 0;
       Executor.Write 3; Executor.Write 0; Executor.Write 0; Executor.Write 0]
    = Some s
    /\ (length (requested (Executor.client s))
        <= length (requested (Client.init ["t1"]))
           + length (List.filter Executor.valid_task
                       (Executor.tasks_of ["11"; "-7"] [1%Z; 2%Z] ["01001"])))%nat
    /\ (Executor.completed s ->
        length (requested (Executor.client s))
        = (length (requested (Client.init ["t1"]))
           + length (List.filter Executor.valid_task
                       (Executor.tasks_of ["11"; "-7"] [1%Z; 2%Z] ["01001"])))%nat).
Proof.
  eexists. split; [vm_compute; reflexivity |].
  apply (one_request_per_valid_task (fun _ => HTTPError 500) (Client.init ["t1"])
           ["11"; "-7"] [1; 2] ["01001"] 2
           {| Executor.client := Client.init ["t1"];
              Executor.pending := Executor.submit_all
                                    (Executor.tasks_of ["11"; "-7"] [1; 2] ["01001"]);
              Executor.running := []; Executor.finished := []; Executor.csv := [] |}).
  - reflexivity.
  - apply (schedule_sound (fun _ => HTTPError 500) 2
             [Executor.Start; Executor.Start; Executor.Work 0; Executor.Work 0;
              Executor.Work 0; Executor.Work 0; Executor.Start; Executor.Start;
              Executor.Work 1; Executor.Work 0;
              Executor.Write 3; Executor.Write 0; Executor.Write 0; Executor.Write 0]).
    vm_compute. reflexivity.
Defined.

(** ** The list of municipality codes *)

Section MunicipiosFacts.

Lemma strip_line (c : string) :
  all_chars isdigit_char c = true -> strip (line_of c) = c.
Proof.
  intros H. unfold strip, line_of. rewrite rstrip_newline.
  rewrite (rstrip_digits c H). by apply lstrip_digits.
Qed.

Lemma kept_codes (rows : list Municipios.row) :
  Forall (fun c => isdigit c = true /\ len c = 5%nat) (Municipios.kept rows).
Proof.
  apply Forall_forall. intros c (r & _ & Hr)%list_elem_of_omap.
  destruct (Municipios.clave r) as [c'|]; [| done].
  destruct ((len c' =? 5)%nat && isdigit c') eqn:E; [| done].
  injection Hr as <-. apply andb_true_iff in E as [?%Nat.eqb_eq ?]. done.
Qed.

Lemma extract_kept (rows : list Municipios.row) (dst : list string) (count : nat) :
  match Municipios.extract rows dst count with
  | Municipios.Finished d n =>
      d = dst ++ (line_of <$> Municipios.kept rows)
      /\ n = (count + length (Municipios.kept rows))%nat
      /\ Forall (fun r => Municipios.row_lookup r "CVEGEO" <> Some None) rows
  | Municipios.AttributeError d =>
      exists r, r ∈ rows /\ Municipios.row_lookup r "CVEGEO" = Some None
  end.
Proof.
  revert dst count. induction rows as [|r rows IH]; intros dst count.
  - cbn. rewrite app_nil_r. split_and!; [done | lia | constructor].
  - cbn [Municipios.extract Municipios.kept omap list_omap].
    assert (Hr : Municipios.clave r = None
                 <-> Municipios.row_lookup r "CVEGEO" = Some None).
    { unfold Municipios.clave.
      destruct (Municipios.row_lookup r "CVEGEO") as [[v|]|]; split; done. }
    destruct (Municipios.clave r) as [c|] eqn:Ec.
    + assert (Hok : Municipios.row_lookup r "CVEGEO" <> Some None).
      { intros H. apply Hr in H. done. }
      destruct ((len c =? 5)%nat && isdigit c) eqn:E.
      * specialize (IH (dst ++ [c +:+ Municipios.newline]) (S count)).
        destruct (Municipios.extract rows _ _) as [d n|d].
        -- destruct IH as (-> & -> & Hall). fold (Municipios.kept rows).
           split_and!; [| cbn [length]; lia | by constructor].
           rewrite fmap_cons, <- app_assoc. done.
        -- destruct IH as (r' & Hin & Hr'). exists r'. split; [by right | done].
      * specialize (IH dst count).
        destruct (Municipios.extract rows _ _) as [d n|d].
        -- destruct IH as (-> & -> & Hall). fold (Municipios.kept rows).
           split_and!; [done | done | by constructor].
        -- destruct IH as (r' & Hin & Hr'). exists r'. split; [by right | done].
    + exists r. split; [left | by apply Hr].
Qed.

End MunicipiosFacts.

(** X17.  When [Municipios.main] finishes, the count it prints is the
    number of lines it wrote, every line is a code of five digits followed
    by a newline, and the file read back by the entry point of the
    quantifier (lines stripped, blanks dropped, then [pad_areas]) gives
    those codes unchanged, each once, in the order of first
    appearance. *)
Theorem municipios_codes (rows : list Municipios.row) (dst : list string)
    (count : nat) :
  Municipios.main rows = Municipios.Finished dst count ->
  count = length dst
  /\ dst = line_of <$> Municipios.kept rows
  /\ Forall (fun c => validate_area c = true /\ len c = 5%nat) (Municipios.kept rows)
  /\ pad_areas (nonblank dst) = fromkeys (Municipios.kept rows).
Proof.
  unfold Municipios.main. intros H.
  pose proof (extract_kept rows [] 0%nat) as Hspec. rewrite H in Hspec.
  destruct Hspec as (-> & -> & _). rewrite app_nil_l.
  pose proof (kept_codes rows) as Hcodes.
  split_and!.
  - by rewrite length_fmap.
  - done.
  - eapply Forall_impl; [exact Hcodes |]. intros c [Hd Hl]. split; [| done].
    apply area_code_valid. by right.
  - assert (Hback : nonblank (line_of <$> Municipios.kept rows) = Municipios.kept rows).
    { clear H. unfold nonblank. induction Hcodes as [|c l [Hd Hl] _ IH]; [done |].
      rewrite !fmap_cons. destruct (isdigit_all_chars c Hd) as [Hall Hne].
      rewrite (strip_line c Hall). cbn [List.filter].
      destruct c; [done |]. cbn [is_empty negb]. by rewrite IH. }
    rewrite Hback. unfold pad_areas. rewrite pad_areas_steps, app_nil_l.
    rewrite omap_padded_fixed; [done |].
    eapply Forall_impl; [exact Hcodes |]. intros c [Hd Hl]. by right.
Qed.

Lemma municipios_codes_witness :
  2%nat = length [line_of "01001"; line_of "01001"]
  /\ [line_of "01001"; line_of "01001"]
     = line_of <$> Municipios.kept
         [[("CVEGEO", Some " 01001 "); ("NOM", Some "A")];
          [("NOM", Some "B")];
          [("CVEGEO", Some "0100"); ("NOM", Some "C")];
          [("CVEGEO", Some (String PyVal.dquote "01001")); ("NOM", Some "D")]]
  /\ Forall (fun c => validate_area c = true /\ len c = 5%nat)
       (Municipios.kept
          [[("CVEGEO", Some " 01001 "); ("NOM", Some "A")];
           [("NOM", Some "B")];
           [("CVEGEO", Some "0100"); ("NOM", Some "C")];
           [("CVEGEO", Some (String PyVal.dquote "01001")); ("NOM", Some "D")]])
  /\ pad_areas (nonblank [line_of "01001"; line_of "01001"])
     = fromkeys
         (Municipios.kept
            [[("CVEGEO", Some " 01001 "); ("NOM", Some "A")];
             [("NOM", Some "B")];
             [("CVEGEO", Some "0100"); ("NOM", Some "C")];
             [("CVEGEO", Some (String PyVal.dquote "01001")); ("NOM", Some "D")]]).
Proof.
  apply (municipios_codes
           [[("CVEGEO", Some " 01001 "); ("NOM", Some "A")];
            [("NOM", Some "B")];
            [("CVEGEO", Some "0100"); ("NOM", Some "C")];
            [("CVEGEO", Some (String PyVal.dquote "01001")); ("NOM", Some "D")]]).
  reflexivity.
Defined.

(** X18.  [Municipios.main] raises exactly when some line of the input
    is too short to have the column [CVEGEO] (the reader then gives
    [None], which has no [strip]); a header without that column makes it
    finish with nothing written. *)
Theorem municipios_short_line (rows : list Municipios.row) :
  ((exists dst, Municipios.main rows = Municipios.AttributeError dst)
   <-> exists r, r ∈ rows /\ Municipios.row_lookup r "CVEGEO" = Some None)
  /\ (Forall (fun r => Municipios.row_lookup r "CVEGEO" = None) rows ->
      Municipios.main rows = Municipios.Finished [] 0%nat).
Proof.
  unfold Municipios.main.
  pose proof (extract_kept rows [] 0%nat) as Hspec. split.
  - destruct (Municipios.extract rows [] 0%nat) as [d n|d].
    + destruct Hspec as (_ & _ & Hall). split; [by intros [? ?] |].
      intros (r & Hin & Hr). exfalso.
      by apply (proj1 (Forall_forall _ _) Hall r Hin).
    + split; [done |]. intros _. by exists d.
  - intros Hnone.
    assert (Hkept : Municipios.kept rows = []).
    { clear Hspec. induction Hnone as [|r l Hr _ IH]; [done |].
      cbn [Municipios.kept omap list_omap]. unfold Municipios.clave. rewrite Hr.
      exact IH. }
    destruct (Municipios.extract rows [] 0%nat) as [d n|d].
    + destruct Hspec as (-> & -> & _). by rewrite Hkept.
    + destruct Hspec as (r & Hin & Hr).
      rewrite (proj1 (Forall_forall _ _) Hnone r Hin) in Hr. done.
Qed.

Lemma municipios_short_line_witness :
  Municipios.main [[("NOM", Some "A")]; [("NOM", Some "B"); ("CLAVE", Some "01001")]]
  = Municipios.Finished [] 0%nat.
Proof.
  apply (proj2 (municipios_short_line
                  [[("NOM", Some "A")]; [("NOM", Some "B"); ("CLAVE", Some "01001")]])).
  repeat constructor.
Defined.

(** ** The URLs of the requests *)

Section Urls.

Lemma append_inv_head (p s1 s2 : string) : p +:+ s1 = p +:+ s2 -> s1 = s2.
Proof. induction p as [|c p IH]; [done |]. intros [= H]. by apply IH. Qed.

Lemma digit_not_slash (c : ascii) : isdigit_char c = true -> Ascii.eqb c "/" = false.
Proof. destruct c as [[] [] [] [] [] [] [] []]; vm_compute; congruence. Qed.

Lemma digits_no_slash (x : string) :
  all_chars isdigit_char x = true -> PyVal.contains_char "/" x = false.
Proof.
  induction x as [|c x IH]; [done |]. simpl.
  intros [Hc Hx]%andb_true_iff. by rewrite (digit_not_slash c Hc), (IH Hx).
Qed.

(** Two strings cut at their first slash agree piece by piece. *)
Lemma first_slash (x x' r r' : string) :
  PyVal.contains_char "/" x = false ->
  PyVal.contains_char "/" x' = false ->
  x +:+ String "/" r = x' +:+ String "/" r' ->
  x = x' /\ r = r'.
Proof.
  revert x'. induction x as [|c x IH]; intros x'; destruct x' as [|c' x']; simpl.
  - by intros _ _ [= ->].
  - intros _ [Hc _]%orb_false_iff [= <- _]. done.
  - intros [Hc _]%orb_false_iff _ [= -> _]. done.
  - intros [_ Hx]%orb_false_iff [_ Hx']%orb_false_iff [= -> H].
    destruct (IH x' Hx Hx' H) as [-> ->]. done.
Qed.

Lemma valid_area_plain (a : string) :
  validate_area a = true -> all_chars isdigit_char a = true.
Proof.
  unfold validate_area. intros [H | [H _]%andb_true_iff]%orb_true_iff.
  - apply String.eqb_eq in H. by subst.
  - by destruct (isdigit_all_chars a H).
Qed.

Lemma valid_estrato_numeral (e : Z) (allow_zero : bool) :
  validate_estrato (IsInt e) allow_zero = true ->
  PyVal.contains_char "/" (pretty e) = false.
Proof.
  unfold validate_estrato. cbn [to_int].
  intros H. assert (0 <= e <= 7) as He.
  { destruct (allow_zero && (e =? 0)) eqn:E.
    - apply andb_true_iff in E as [_ ?%Z.eqb_eq]. lia.
    - apply andb_true_iff in H as [?%Z.leb_le ?%Z.leb_le]. lia. }
  assert (e = 0 \/ e = 1 \/ e = 2 \/ e = 3 \/ e = 4 \/ e = 5 \/ e = 6 \/ e = 7)
    as Hc by lia.
  repeat (destruct Hc as [-> | Hc]; [reflexivity |]). by subst.
Qed.

End Urls.

(** X19.  Requests that pass the validation have different URLs unless
    they are the same request with the same token: the URL determines the
    activity, the area, the stratum and the token. *)
Theorem url_determines_request (actividad actividad' area area' : string)
    (estrato estrato' : Z) (allow_zero allow_zero' : bool) (token token' : string) :
  Client.valid_request actividad area estrato allow_zero = true ->
  Client.valid_request actividad' area' estrato' allow_zero' = true ->
  Client.url_of actividad area estrato token
  = Client.url_of actividad' area' estrato' token' ->
  actividad = actividad' /\ area = area' /\ estrato = estrato' /\ token = token'.
Proof.
  unfold Client.valid_request.
  intros [[Ha Har]%andb_true_iff He]%andb_true_iff
         [[Ha' Har']%andb_true_iff He']%andb_true_iff Hurl.
  unfold Client.url_of in Hurl.
  apply append_inv_head in Hurl.
  change ("/" +:+ ?s) with (String "/" s) in Hurl. injection Hurl as Hurl.
  apply first_slash in Hurl as [-> Hurl];
    [| by apply digits_no_slash, validate_actividad_plain..].
  apply first_slash in Hurl as [-> Hurl];
    [| by apply digits_no_slash, valid_area_plain..].
  apply first_slash in Hurl as [Hp ->];
    [| by eapply valid_estrato_numeral..].
  apply (inj pretty) in Hp. done.
Qed.

Lemma url_determines_request_witness :
  "11" = "11" /\ "01001" = "01001" /\ 3 = 3 /\ "t1" = "t1".
Proof.
  apply (url_determines_request "11" "11" "01001" "01001" 3 3 false true "t1" "t1");
    reflexivity.
Defined.

(** ** Nothing to do *)

(** X20.  When the list of activities, of strata or of areas is empty,
    [generate_csv] has nothing to submit: the run is completed at once,
    no step is possible, no row is written and no request sent. *)
Theorem generate_csv_nothing_to_do (api : service) (c : DENUEClient)
    (ramos : list string) (estratos : list Z) (areas : list string)
    (max_workers : Z) (s0 : Executor.state) :
  ramos = [] \/ estratos = [] \/ areas = [] ->
  Executor.generate_csv c ramos estratos areas max_workers = Returns s0 ->
  Executor.completed s0
  /\ Executor.stuck api max_workers s0
  /\ Executor.csv s0 = []
  /\ Executor.client s0 = c.
Proof.
  intros Hempty.
  assert (Hnone : Executor.tasks_of ramos estratos areas = []).
  { apply length_zero_iff_nil. rewrite length_tasks_of.
    destruct Hempty as [-> | [-> | ->]]; simpl; lia. }
  unfold Executor.generate_csv. destruct (max_workers <=? 0); [done |].
  intros [= <-]. rewrite Hnone.
  change (Executor.submit_all []) with (@nil Executor.future).
  split_and!; [done | | done | done].
  intros s' Hstep. inversion Hstep; subst;
    match goal with
    | H : ?l ++ _ :: _ = [] |- _ => by destruct l
    | H : [] = ?l ++ _ :: _ |- _ => by destruct l
    end.
Qed.

Lemma generate_csv_nothing_to_do_witness :
  Executor.completed
    {| Executor.client := Client.init ["t1"]; Executor.pending := [];
       Executor.running := []; Executor.finished := []; Executor.csv := [] |}
  /\ Executor.stuck (fun _ => RequestException) 4
       {| Executor.client := Client.init ["t1"]; Executor.pending := [];
          Executor.running := []; Executor.finished := []; Executor.csv := [] |}
  /\ Executor.csv
       {| Executor.client := Client.init ["t1"]; Executor.pending := [];
          Executor.running := []; Executor.finished := []; Executor.csv := [] |} = []
  /\ Executor.client
       {| Executor.client := Client.init ["t1"]; Executor.pending := [];
          Executor.running := []; Executor.finished := []; Executor.csv := [] |}
     = Client.init ["t1"].
Proof.
  apply (generate_csv_nothing_to_do (fun _ => RequestException) (Client.init ["t1"])
           ["11"] [] ["01001"] 4).
  - right. by left.
  - reflexivity.
Defined.

(** ** The discovery and the identifiers that [int] cannot read *)

Section Readable.

Lemma decimal_char_facts (c : ascii) :
  decimal_char c = true ->
  isdigit_char c = true /\ int_space c = false
  /\ Ascii.eqb c "+" = false /\ Ascii.eqb c "-" = false.
Proof. destruct c as [[] [] [] [] [] [] [] []]; vm_compute; intros; split_and!; congruence. Qed.

Lemma read_digits_decimal (s : string) (acc : Z) :
  decimal s = true -> exists v, read_digits acc false s = Some (v, EmptyString).
Proof.
  revert acc. induction s as [|c s IH]; intros acc; [by eexists |].
  unfold decimal. cbn [all_chars read_digits]. unfold decimal_char at 1.
  destruct (decimal_value c) as [d|]; [| done]. intros H. by apply IH.
Qed.

Lemma count_digits_le_len (s : string) : (count_digits s <= len s)%nat.
Proof.
  induction s as [|c s IH]; [done |]. cbn [count_digits len String.length].
  unfold len in IH. destruct (decimal_value c); lia.
Qed.

Lemma int_of_str_decimal (s : string) :
  decimal s = true -> s <> EmptyString -> (len s <= MAX_STR_DIGITS)%nat ->
  is_Some (int_of_str s).
Proof.
  destruct s as [|c s]; [done |]. intros H _ Hlen.
  assert (Hc : decimal_char c = true).
  { unfold decimal in H. cbn [all_chars] in H. by apply andb_true_iff in H as [? _]. }
  destruct (decimal_char_facts c Hc) as (_ & Hsp & Hplus & Hminus).
  destruct (read_digits_decimal (String c s) 0 H) as [v Hv].
  pose proof (count_digits_le_len (String c s)) as Hcount.
  assert (Hle : (count_digits (String c s) <=? MAX_STR_DIGITS)%nat = true)
    by (apply Nat.leb_le; lia).
  unfold int_of_str. cbn [skip_spaces]. rewrite Hsp, Hplus, Hminus, Hle.
  unfold read_number. cbn [read_digits] in Hv.
  destruct (decimal_value c) as [d|] eqn:Hd; [| by unfold decimal_char in Hc; rewrite Hd in Hc].
  replace (10 * 0 + d) with d in Hv by lia. rewrite Hv. by eexists.
Qed.

Lemma decimal_isdigit (s : string) :
  decimal s = true -> s <> EmptyString -> isdigit s = true.
Proof.
  destruct s as [|c s]; [done |]. intros H _. unfold isdigit.
  revert H. generalize (String c s). clear. intros s.
  induction s as [|c s IH]; [done |]. unfold decimal. cbn [all_chars].
  intros [Hc Hs]%andb_true_iff.
  destruct (decimal_char_facts c Hc) as [-> _]. by apply IH.
Qed.

(** The sort by [int] stops at the first identifier that [int] refuses. *)
Lemma keys_unreadable (xs : list string) (acc : list (Z * string)) :
  Exists (fun x => int_of_str x = None) xs ->
  for_each (fun acc x => k ← PyVal.int (VStr x); Returns (acc ++ [(k, x)])) xs acc
  = Raises ValueError.
Proof.
  revert acc. induction xs as [|x xs IH]; intros acc Hex; [by inversion Hex |].
  cbn [for_each PyVal.int]. destruct (int_of_str x) as [k|] eqn:Hk.
  - cbn [mbind outcome_bind]. apply IH.
    inversion Hex as [? ? Hx | ? ? Hxs]; subst; [congruence | done].
  - reflexivity.
Qed.

Lemma two_characters_elem (ids : list string) (i : string) :
  i ∈ Client.two_characters ids <-> i ∈ ids /\ len i = 2%nat.
Proof.
  unfold Client.two_characters.
  rewrite fromkeys_elem, list_elem_of_In, filter_In, <- list_elem_of_In.
  rewrite andb_true_iff, Nat.eqb_eq, negb_true_iff.
  split; [tauto |]. intros [Hin Hlen]. split_and!; [done | | done].
  destruct i; [done | reflexivity].
Qed.

End Readable.

(** X21.  Once the request of the discovery has returned its records,
    [get_activities] raises [ValueError] exactly when [int] cannot read
    one of the identifiers of two characters; otherwise it returns. *)
Theorem discovery_raises_on_unreadable (api : service) (c c' : DENUEClient)
    (raw : list value) :
  Client.fetch api c "0" "0" 0 true = Returns (raw, c') ->
  (Client.get_activities api c "0" = Raises ValueError
   <-> exists i, i ∈ Client.extracted_ids raw /\ len i = 2%nat /\ int_of_str i = None)
  /\ ((exists sectors, Client.get_activities api c "0" = Returns (sectors, c'))
      <-> forall i, i ∈ Client.extracted_ids raw -> len i = 2%nat ->
                    is_Some (int_of_str i)).
Proof.
  intros Hfetch.
  set (ids := Client.two_characters (Client.extracted_ids raw)).
  assert (Hraise : Exists (fun x => int_of_str x = None) ids ->
                   Client.get_activities api c "0" = Raises ValueError).
  { intros Hex. unfold Client.get_activities.
    change (strip "0") with "0". cbn [String.eqb Ascii.eqb Bool.eqb].
    rewrite Hfetch. cbn [mbind outcome_bind]. unfold Client.sorted_key_int.
    fold ids. by rewrite (keys_unreadable ids [] Hex). }
  assert (Hreturn : Forall (fun x => is_Some (int_of_str x)) ids ->
                    exists sectors,
                      Client.get_activities api c "0" = Returns (sectors, c')).
  { intros Hall.
    destruct (get_activities_discovery api c c' raw Hfetch Hall) as (s & Hs & _).
    by exists s. }
  assert (Hdec : Forall (fun x => is_Some (int_of_str x)) ids
                 \/ Exists (fun x => int_of_str x = None) ids).
  { clearbody ids. clear. induction ids as [|x ids [IH | IH]].
    - left. constructor.
    - destruct (int_of_str x) as [k|] eqn:Hk.
      + left. constructor; [by rewrite Hk | done].
      + right. by constructor.
    - right. by constructor 2. }
  split.
  - split.
    + intros Hr. destruct Hdec as [Hall | Hex].
      * destruct (Hreturn Hall) as [s Hs]. congruence.
      * apply Exists_exists in Hex as (i & Hi & Hnone).
        apply two_characters_elem in Hi as [Hi Hlen]. by exists i.
    + intros (i & Hi & Hlen & Hnone). apply Hraise, Exists_exists.
      exists i. split; [| done]. by apply two_characters_elem.
  - split.
    + intros [s Hs] i Hi Hlen. destruct Hdec as [Hall | Hex].
      * rewrite Forall_forall in Hall. by apply Hall, two_characters_elem.
      * rewrite (Hraise Hex) in Hs. discriminate.
    + intros Hall. apply Hreturn, Forall_forall. intros i Hi.
      apply two_characters_elem in Hi as [Hi Hlen]. by apply Hall.
Qed.

Lemma discovery_raises_on_unreadable_witness :
  (Client.get_activities
     (fun _ => HTTPOk (Some (VList [VList [VStr "23"]; VList [VStr "ab"]])))
     (Client.init ["t1"]) "0" = Raises ValueError
   <-> exists i, i ∈ Client.extracted_ids [VList [VStr "23"]; VList [VStr "ab"]]
                 /\ len i = 2%nat /\ int_of_str i = None)
  /\ ((exists sectors,
         Client.get_activities
           (fun _ => HTTPOk (Some (VList [VList [VStr "23"]; VList [VStr "ab"]])))
           (Client.init ["t1"]) "0"
         = Returns (sectors,
                    {| token_mgr := TM.put "t1" {| queue := [];
                                                   errors := errors (TM.init ["t1"]) |};
                       requested := [Client.url_of "0" "0" 0 "t1"] |}))
      <-> forall i, i ∈ Client.extracted_ids [VList [VStr "23"]; VList [VStr "ab"]] ->
                    len i = 2%nat -> is_Some (int_of_str i)).
Proof.
  apply (discovery_raises_on_unreadable
           (fun _ => HTTPOk (Some (VList [VList [VStr "23"]; VList [VStr "ab"]])))
           (Client.init ["t1"])
           {| token_mgr := TM.put "t1" {| queue := [];
                                          errors := errors (TM.init ["t1"]) |};
              requested := [Client.url_of "0" "0" 0 "t1"] |}
           [VList [VStr "23"]; VList [VStr "ab"]]).
  reflexivity.
Defined.

(** X22.  When the identifiers of two characters that the API returns
    are written with the decimal digits 0 to 9, the discovery returns,
    and every activity it returns passes [validate_actividad], the check
    that an explicit list goes through; the activities are distinct and
    in ascending order. *)
Theorem discovery_decimal_sectors (api : service) (c c' : DENUEClient)
    (raw : list value) :
  Client.fetch api c "0" "0" 0 true = Returns (raw, c') ->
  (forall i, i ∈ Client.extracted_ids raw -> len i = 2%nat -> decimal i = true) ->
  exists sectors,
    Client.get_activities api c "0" = Returns (sectors, c')
    /\ Forall (fun a => validate_actividad a = true) sectors
    /\ NoDup sectors
    /\ Sorted by_int_key sectors.
Proof.
  intros Hfetch Hdecimal.
  assert (Hall : Forall (fun x => is_Some (int_of_str x))
                   (Client.two_characters (Client.extracted_ids raw))).
  { apply Forall_forall. intros i [Hi Hlen]%two_characters_elem.
    apply int_of_str_decimal; [by apply Hdecimal | by destruct i |].
    rewrite Hlen. unfold MAX_STR_DIGITS. lia. }
  destruct (get_activities_discovery api c c' raw Hfetch Hall)
    as (sectors & Hget & Hnodup & Hsorted & Hmem).
  exists sectors. split_and!; [done | | done | done].
  apply Forall_forall. intros i [Hi Hlen]%Hmem.
  unfold validate_actividad.
  rewrite (decimal_isdigit i); [| by apply Hdecimal | by destruct i].
  rewrite Hlen. apply orb_true_r.
Qed.

Lemma discovery_decimal_sectors_witness :
  exists sectors,
    Client.get_activities
      (fun _ => HTTPOk (Some (VList [VList [VStr "23"]; VList [VInt 7; VStr "x"];
                                     VDict [("AE", VStr "07")]; VList [VStr "07"]])))
      (Client.init ["t1"]) "0"
    = Returns (sectors,
               {| token_mgr := TM.put "t1" {| queue := [];
                                              errors := errors (TM.init ["t1"]) |};
                  requested := [Client.url_of "0" "0" 0 "t1"] |})
    /\ Forall (fun a => validate_actividad a = true) sectors
    /\ NoDup sectors
    /\ Sorted by_int_key sectors.
Proof.
  apply (discovery_decimal_sectors
           (fun _ => HTTPOk (Some (VList [VList [VStr "23"]; VList [VInt 7; VStr "x"];
                                          VDict [("AE", VStr "07")]; VList [VStr "07"]])))
           (Client.init ["t1"])
           {| token_mgr := TM.put "t1" {| queue := [];
                                          errors := errors (TM.init ["t1"]) |};
              requested := [Client.url_of "0" "0" 0 "t1"] |}
           [VList [VStr "23"]; VList [VInt 7; VStr "x"];
            VDict [("AE", VStr "07")]; VList [VStr "07"]]).
  - reflexivity.
  - intros i Hi Hlen. vm_compute in Hi.
    repeat (apply elem_of_cons in Hi as [-> | Hi]; [try reflexivity; try discriminate |]).
    by apply elem_of_nil in Hi.
Defined.
